(** * gofs: the multipart-upload tracking store and the storage interactor

    A shallow embedding of

      - package [gofs]: the in-memory implementation of the [DB] interface
        ([inMemoryDB], its records and parts, and the seven operations), and
      - package [storage]: [Interactor.CompleteMultipartUpload] and
        [Interactor.UploadPart], the two orchestrator entry points that
        validate their arguments before they talk to the object store.

    Go's [int64] values are embedded as [Z].  No operation of the embedded
    code does arithmetic on them (they are compared, stored and used as map
    keys only), so no wrap-around has to be written out.  [len] of a map is
    a natural number; [int64(len m)] is its injection into [Z].

    Every store operation takes the store's lock for its whole body, so an
    operation is one atomic state transition: a function from the store to
    a result and the next store. *)

From stdpp Require Import gmap strings list fin_maps sorting.
From Stdlib Require Import ZArith Lia Ascii.

Set Warnings "-clear-no-such-hyp".

Local Open Scope Z_scope.
Local Open Scope string_scope.

Abbreviation int64 := Z (only parsing).

(* ===================================================================== *)
(** * Package gofs                                                        *)
(* ===================================================================== *)

Module gofs.

(** ** Predefined errors *)

Inductive error : Set :=
| ErrNotFound
| ErrAlreadyExists
| ErrFileKeyEmpty
| ErrInvalidTotalParts.

#[global] Instance error_eq_dec : EqDecision error.
Proof. solve_decision. Defined.

(** The spec's InvalidArgument class: the two argument-validation errors. *)
Definition InvalidArgument (e : error) : Prop :=
  e = ErrFileKeyEmpty \/ e = ErrInvalidTotalParts.

(** ** Interfaces *)

(** [CompletedPart] represents a part of a multipart upload. *)
Class CompletedPart (A : Type) := {
  PartNumber : A -> int64;
  ETag : A -> string
}.

(** [UploadStatus] represents the status of a multipart upload. *)
Class UploadStatus (A : Type) := {
  IsCompleted : A -> bool;
  TotalParts : A -> int64;
  CompletedPartsNum : A -> int64
}.

(** ** Data *)

Record inMemoryPart : Type := mkPart {
  partNumber : int64;
  eTag : string
}.

Record inMemoryRecord : Type := mkRecord {
  uploadID : string;
  totalParts : int64;
  parts : gmap Z inMemoryPart
}.

(** The [sync.RWMutex] of the Go struct is the atomicity of the operations
    below; what remains is the map. *)
Record inMemoryDB : Type := mkDB {
  records : gmap string inMemoryRecord
}.

#[global] Instance inMemoryPart_CompletedPart : CompletedPart inMemoryPart := {
  PartNumber part := partNumber part;
  ETag part := eTag part
}.

#[global] Instance inMemoryRecord_UploadStatus : UploadStatus inMemoryRecord := {
  IsCompleted record := Z.eqb (Z.of_nat (size (parts record))) (totalParts record);
  TotalParts record := totalParts record;
  CompletedPartsNum record := Z.of_nat (size (parts record))
}.

(** [CompletedParts]: the parts that have been uploaded, in the (unspecified)
    order in which the map is ranged over. *)
Definition CompletedParts (record : inMemoryRecord) : list inMemoryPart :=
  (map_to_list (parts record)).*2.

Definition UploadID (record : inMemoryRecord) : string := uploadID record.

(** ** Operations *)

Definition NewInMemoryDB : inMemoryDB := {| records := ∅ |}.

Definition CreateUpload (key uploadID : string) (totalParts : int64)
    (db : inMemoryDB) : option error * inMemoryDB :=
  if decide (key = "") then (Some ErrFileKeyEmpty, db)
  else if ((totalParts <=? 0) || (10000 <? totalParts))%Z
  then (Some ErrInvalidTotalParts, db)
  else match records db !! key with
       | Some _ => (Some ErrAlreadyExists, db)
       | None =>
           let record :=
             {| uploadID := uploadID; totalParts := totalParts; parts := ∅ |} in
           (None, {| records := <[key := record]> (records db) |})
       end.

Definition AddPart (key : string) (partNumber : int64) (eTag : string)
    (db : inMemoryDB) : option error * inMemoryDB :=
  match records db !! key with
  | None => (Some ErrNotFound, db)
  | Some record =>
      let record' :=
        {| uploadID := uploadID record;
           totalParts := totalParts record;
           parts := <[partNumber := {| partNumber := partNumber; eTag := eTag |}]>
                      (parts record) |} in
      (None, {| records := <[key := record']> (records db) |})
  end.

Definition CompleteUpload (key : string) (db : inMemoryDB)
    : option error * inMemoryDB :=
  match records db !! key with
  | None => (Some ErrNotFound, db)
  | Some _ => (None, {| records := delete key (records db) |})
  end.

Definition AbortUpload (key : string) (db : inMemoryDB)
    : option error * inMemoryDB :=
  (None, {| records := delete key (records db) |}).

Definition GetUploadID (key : string) (db : inMemoryDB)
    : (string * option error) * inMemoryDB :=
  match records db !! key with
  | None => (("", Some ErrNotFound), db)
  | Some record => ((uploadID record, None), db)
  end.

(** Go ranges over the map in an order it leaves unspecified and that may
    differ from one call to the next; [map_to_list] is one such order.
    What is stated of the returned list is stated up to rearrangement. *)
Definition GetParts (key : string) (db : inMemoryDB)
    : (list inMemoryPart * option error) * inMemoryDB :=
  match records db !! key with
  | None => (([], Some ErrNotFound), db)
  | Some record => (((map_to_list (parts record)).*2, None), db)
  end.

Definition GetStatus (key : string) (db : inMemoryDB)
    : (option inMemoryRecord * option error) * inMemoryDB :=
  match records db !! key with
  | None => ((None, Some ErrNotFound), db)
  | Some record => ((Some record, None), db)
  end.

(** ** Call sequences *)

(** One call of the [DB] interface, with its arguments. *)
Inductive call : Type :=
| CallCreateUpload (key uploadID : string) (totalParts : int64)
| CallAddPart (key : string) (partNumber : int64) (eTag : string)
| CallCompleteUpload (key : string)
| CallAbortUpload (key : string)
| CallGetUploadID (key : string)
| CallGetParts (key : string)
| CallGetStatus (key : string).

(** The store after a call (whatever the call returned). *)
Definition step (c : call) (db : inMemoryDB) : inMemoryDB :=
  match c with
  | CallCreateUpload key uploadID totalParts =>
      (CreateUpload key uploadID totalParts db).2
  | CallAddPart key partNumber eTag => (AddPart key partNumber eTag db).2
  | CallCompleteUpload key => (CompleteUpload key db).2
  | CallAbortUpload key => (AbortUpload key db).2
  | CallGetUploadID key => (GetUploadID key db).2
  | CallGetParts key => (GetParts key db).2
  | CallGetStatus key => (GetStatus key db).2
  end.

Definition run (cs : list call) (db : inMemoryDB) : inMemoryDB :=
  foldl (fun db c => step c db) db cs.

(** A store is reachable when some sequence of calls builds it from the
    empty store. *)
Definition reachable (db : inMemoryDB) : Prop :=
  exists cs, db = run cs NewInMemoryDB.

(** [ends_upload key c]: the call is a [CompleteUpload] or an [AbortUpload]
    of [key]. *)
Definition ends_upload (key : string) (c : call) : bool :=
  match c with
  | CallCompleteUpload key' | CallAbortUpload key' => bool_decide (key' = key)
  | _ => false
  end.

(** The part numbers that the calls [cs] pass to [AddPart] for [key]. *)
Definition added_parts (key : string) (cs : list call) : gset Z :=
  foldl (fun acc c =>
           match c with
           | CallAddPart key' partNumber _ =>
               if decide (key' = key) then {[partNumber]} ∪ acc else acc
           | _ => acc
           end) ∅ cs.

(** The tag of the last [AddPart] of [partNumber] to [key] among [cs]. *)
Definition last_tag (key : string) (partNumber : int64) (cs : list call)
    : option string :=
  foldl (fun acc c =>
           match c with
           | CallAddPart key' partNumber' eTag =>
               if decide (key' = key /\ partNumber' = partNumber)
               then Some eTag else acc
           | _ => acc
           end) None cs.

(** [in_declared_range c db]: when [c] adds a part to a record of [db], its
    part number lies in [1..totalParts] of that record (what the
    orchestrator checks before it sends the chunk). *)
Definition in_declared_range (c : call) (db : inMemoryDB) : bool :=
  match c with
  | CallAddPart key partNumber _ =>
      match records db !! key with
      | Some record =>
          ((1 <=? partNumber) && (partNumber <=? totalParts record))%Z
      | None => true
      end
  | _ => true
  end.

Fixpoint adds_in_declared_range (cs : list call) (db : inMemoryDB) : bool :=
  match cs with
  | [] => true
  | c :: cs' => in_declared_range c db && adds_in_declared_range cs' (step c db)
  end.

(** Every part of every record has a number in [1..totalParts]. *)
Definition parts_in_range (db : inMemoryDB) : Prop :=
  forall key record pn,
    records db !! key = Some record -> is_Some (parts record !! pn) ->
    1 <= pn <= totalParts record.

(** ** Concrete stores and call sequences *)

(** Parts 1 and 2 arrive, part 1 is sent again with another tag, then
    part 3 arrives. *)
Definition three_part_upload : list call :=
  [CallAddPart "k" 1 "a"; CallAddPart "k" 2 "b"; CallAddPart "k" 1 "c";
   CallGetStatus "k"; CallAddPart "k" 3 "d"].

(** A store that holds one upload, ["k"], with part 2 of 2 received. *)
Definition one_upload : inMemoryDB :=
  {| records := {[ "k" := mkRecord "u" 2 {[ 2 := mkPart 2 "b" ]} ]} |}.

End gofs.

(* ===================================================================== *)
(** * Package storage                                                     *)
(* ===================================================================== *)

Module storage.

(** ** Predefined errors *)

(** [Wrap cause message] is [errors.Wrap(err, message)] for an error [err]
    of the SDK, of which only the text is kept. *)
Inductive error : Type :=
| ErrMissedUploadID
| ErrNoCompletedParts
| ErrTotalParts
| ErrPartNum
| ErrFileEmpty
| ErrInvalidContentType
| ErrInvalidReader
| Wrap (cause : string) (message : string).

(** ** The object store, as the interactor uses it *)

Record s3_CompletedPart : Type := {
  s3_ETag : string;
  s3_PartNumber : int64
}.

Record CompleteMultipartUploadInput : Type := {
  cmu_Bucket : string;
  cmu_Key : string;
  cmu_UploadId : string;
  cmu_Parts : list s3_CompletedPart
}.

Record UploadPartInput : Type := {
  up_Bucket : string;
  up_Key : string;
  up_UploadId : string;
  up_PartNumber : int64;
  up_Body : list Byte.byte
}.

(** [up_ETag] is a pointer in the SDK and may be nil. *)
Record UploadPartOutput : Type := {
  up_ETag : option string
}.

(** A request that reached the object store. *)
Inductive request : Type :=
| ReqCompleteMultipartUpload (params : CompleteMultipartUploadInput)
| ReqUploadPart (params : UploadPartInput).

(** The SDK is not part of the repository.  It is a parameter: the
    validation of a request's parameters ([Validate], [None] for a nil
    error), and the answers of the object store, which may depend on the
    requests it has received so far. *)
Record S3 : Type := {
  CompleteMultipartUploadInput_Validate :
    CompleteMultipartUploadInput -> option string;
  UploadPartInput_Validate : UploadPartInput -> option string;
  S3_CompleteMultipartUpload :
    list request -> CompleteMultipartUploadInput -> option string;
  S3_UploadPart :
    list request -> UploadPartInput -> UploadPartOutput + string
}.

(** ** The interactor's computations *)

(** A method of the interactor returns a value, returns an error or
    panics (a nil pointer is dereferenced), and adds the requests it sends
    to those the object store has received. *)
Inductive result (A : Type) : Type :=
| Return (a : A)
| Fail (e : error)
| Panic.
Arguments Return {A} a.
Arguments Fail {A} e.
Arguments Panic {A}.

Definition M (A : Type) : Type := list request -> result A * list request.

Definition ret {A} (a : A) : M A := fun log => (Return a, log).

Definition fail {A} (e : error) : M A := fun log => (Fail e, log).

Definition panic {A} : M A := fun log => (Panic, log).

Definition bind {A B} (m : M A) (k : A -> M B) : M B :=
  fun log =>
    match m log with
    | (Return a, log') => k a log'
    | (Fail e, log') => (Fail e, log')
    | (Panic, log') => (Panic, log')
    end.

Notation "x <- m ;; k" := (bind m (fun x => k))
  (at level 100, m at next level, right associativity).

(** Sending a request: the object store answers from what it has received,
    and the request is recorded. *)
Definition send {A} (answer : list request -> A) (r : request) : M A :=
  fun log => (Return (answer log), (log ++ [r])%list).

(** ** Interfaces and data *)

(** [CompletedPart] represents a part of a multipart upload. *)
Class CompletedPart (A : Type) := {
  PartNumber : A -> int64;
  ETag : A -> string
}.

Record completedPart : Type := {
  partNumber : int64;
  etag : string
}.

#[global] Instance completedPart_CompletedPart : CompletedPart completedPart := {
  PartNumber p := partNumber p;
  ETag p := etag p
}.

(** The parts of the tracking store have the two methods as well. *)
#[global] Instance inMemoryPart_CompletedPart
  : CompletedPart gofs.inMemoryPart := {
  PartNumber p := gofs.partNumber p;
  ETag p := gofs.eTag p
}.

Record Interactor : Type := {
  s3 : S3;
  bucket : string;
  fileEndpoint : string;
  forcePathStyle : bool
}.

(** ** sort.Slice *)

(** [sort.Slice] belongs to Go's library.  It orders the slice by [less]
    and does not promise to keep equal elements in their order.  It is
    embedded as the insertion sort that the library runs on short slices;
    the theorems below use of it only that the result is a rearrangement
    of the slice and is ordered. *)
Fixpoint insert {A} (less : A -> A -> bool) (x : A) (l : list A) : list A :=
  match l with
  | [] => [x]
  | y :: l' => if less x y then x :: l else y :: insert less x l'
  end.

Definition sort_Slice {A} (less : A -> A -> bool) (l : list A) : list A :=
  foldl (fun sorted x => insert less x sorted) [] l.

(** ** Multipart upload *)

(** The conversion of a [CompletedPart] to the SDK's [s3.CompletedPart]. *)
Definition to_s3 `{CompletedPart P} (part : P) : s3_CompletedPart :=
  {| s3_ETag := ETag part; s3_PartNumber := PartNumber part |}.

(** [completedParts] is the variadic slice; its elements are non-nil
    interface values, all of one implementation [P].  The sort is done in
    place in Go; the caller's view of the slice is not part of the model. *)
Definition CompleteMultipartUpload `{CompletedPart P} (i : Interactor)
    (filename uploadID : string) (completedParts : list P) : M unit :=
  if decide (uploadID = "") then fail ErrMissedUploadID
  else if decide (length completedParts = 0%nat) then fail ErrNoCompletedParts
  else
    let completedParts :=
      sort_Slice (fun a b => (PartNumber a <? PartNumber b)%Z) completedParts in
    let parts := to_s3 <$> completedParts in
    let params :=
      {| cmu_Bucket := bucket i; cmu_Key := filename;
         cmu_UploadId := uploadID; cmu_Parts := parts |} in
    match CompleteMultipartUploadInput_Validate (s3 i) params with
    | Some err => fail (Wrap err "storage.completeMultipartUpload: invalid params")
    | None =>
        answer <- send (fun log => S3_CompleteMultipartUpload (s3 i) log params)
                       (ReqCompleteMultipartUpload params) ;;
        match answer with
        | Some err => fail (Wrap err "storage.completeMultipartUpload")
        | None => ret tt
        end
    end.

Definition UploadPart (i : Interactor) (filename uploadID : string)
    (data : list Byte.byte) (partNum totalParts : int64) : M completedPart :=
  if decide (uploadID = "") then fail ErrMissedUploadID
  else if ((totalParts =? 0) || (10000 <? totalParts))%Z then fail ErrTotalParts
  else if ((partNum <? 1) || (totalParts <? partNum))%Z then fail ErrPartNum
  else
    let params :=
      {| up_Bucket := bucket i; up_Key := filename; up_UploadId := uploadID;
         up_PartNumber := partNum; up_Body := data |} in
    match UploadPartInput_Validate (s3 i) params with
    | Some err => fail (Wrap err "storage.uploadPart: invalid params")
    | None =>
        answer <- send (fun log => S3_UploadPart (s3 i) log params)
                       (ReqUploadPart params) ;;
        match answer with
        | inr err => fail (Wrap err "storage.uploadPart")
        | inl partResp =>
            match up_ETag partResp with
            | None => panic
            | Some tag => ret {| etag := tag; partNumber := partNum |}
            end
        end
    end.

(** An object store that accepts every request. *)
Definition accepting_S3 : S3 := {|
  CompleteMultipartUploadInput_Validate _ := None;
  UploadPartInput_Validate _ := None;
  S3_CompleteMultipartUpload _ _ := None;
  S3_UploadPart _ params := inl {| up_ETag := Some "etag" |}
|}.

Definition an_interactor : Interactor := {|
  s3 := accepting_S3;
  bucket := "bucket";
  fileEndpoint := "https://files.example";
  forcePathStyle := false
|}.

End storage.

(* ===================================================================== *)
(** * Package storage: file helpers and URLs                              *)
(* ===================================================================== *)

Module storage_helpers.
Import storage.

(** ** Errors with their chain of wraps *)

(** The helpers wrap the package's own errors and errors of the libraries
    they call, and wrap wrapped errors again: [Predefined e] is one of the
    package's error values, [Foreign text] an error of a library, and
    [Wrapped cause message] is [errors.Wrap(cause, message)]. *)
Inductive chain : Type :=
| Predefined (e : error)
| Foreign (text : string)
| Wrapped (cause : chain) (message : string).

(** A call returns or panics. *)
Inductive outcome (A : Type) : Type :=
| Returns (a : A)
| Panics.
Arguments Returns {A} a.
Arguments Panics {A}.

(** ** int64 arithmetic *)

(** The value of an integer in two's complement on 64 bits. *)
Definition wrap64 (z : Z) : int64 := (z + 2 ^ 63) mod 2 ^ 64 - 2 ^ 63.

Definition is_int64 (z : Z) : Prop := - 2 ^ 63 <= z < 2 ^ 63.

(** ** io.ReadSeeker *)

Inductive whence : Set := SeekStart | SeekCurrent | SeekEnd.

(** Of the interface [io.ReadSeeker] the helpers use [Seek]: it answers a
    position and an error ([None] for nil) and moves the reader. *)
Class ReadSeeker (F : Type) := {
  Seek : F -> int64 -> whence -> (int64 * option string) * F
}.

(** Go's [bytes.Reader], the reader of the package's tests: [Seek] fails on
    a negative position and moves to any other. *)
Record bytes_Reader : Type := {
  reader_bytes : list Byte.byte;
  reader_position : int64
}.

#[global] Instance bytes_Reader_ReadSeeker : ReadSeeker bytes_Reader := {
  Seek r offset w :=
    let abs :=
      match w with
      | SeekStart => offset
      | SeekCurrent => reader_position r + offset
      | SeekEnd => Z.of_nat (length (reader_bytes r)) + offset
      end in
    if (abs <? 0)%Z
    then ((0, Some "bytes.Reader.Seek: negative position"), r)
    else ((abs, None),
          {| reader_bytes := reader_bytes r; reader_position := abs |})
}.

(** ** File size and number of parts *)

(** [file] is the interface value: [None] is nil.  The reader after the
    call is returned beside the results. *)
Definition GetFileSize `{ReadSeeker F} (file : option F)
    : (int64 * option chain) * option F :=
  match file with
  | None =>
      ((0, Some (Wrapped (Predefined ErrInvalidReader) "storage.GetFileSize")),
       None)
  | Some f =>
      let '((fileSize, err), f) := Seek f 0 SeekEnd in
      match err with
      | Some e => ((0, Some (Wrapped (Foreign e) "storage.GetFileSize")), Some f)
      | None =>
          let '((_, err), f) := Seek f 0 SeekStart in
          match err with
          | Some e =>
              ((0, Some (Wrapped (Foreign e) "storage.GetFileSize")), Some f)
          | None => ((fileSize, None), Some f)
          end
      end
  end.

(** Go's integer division truncates toward zero ([Z.quot], with remainder
    [Z.rem]), wraps when [math.MinInt64] is divided by [-1], and panics on a
    zero divisor. *)
Definition GetMaxFileParts `{ReadSeeker F} (file : option F) (partSize : int64)
    : outcome (int64 * option chain) * option F :=
  match file with
  | None =>
      (Returns (0, Some (Wrapped (Predefined ErrInvalidReader)
                           "storage.GetMaxFileParts")),
       None)
  | Some _ =>
      let '((fileSize, err), file) := GetFileSize file in
      match err with
      | Some e => (Returns (0, Some (Wrapped e "storage.GetMaxFileParts")), file)
      | None =>
          if (partSize =? 0)%Z then (Panics, file)
          else
            let maxFileParts := wrap64 (Z.quot fileSize partSize) in
            let maxFileParts :=
              if (Z.rem fileSize partSize =? 0)%Z then maxFileParts
              else wrap64 (maxFileParts + 1) in
            (Returns (maxFileParts, None), file)
      end
  end.

(** ** strings.Split and strings.Join *)

(** [strings.Split s sep] for a separator of one byte: the pieces of [s]
    between the occurrences of [sep], one more than there are
    occurrences. *)
Fixpoint strings_Split (s : string) (sep : Ascii.ascii) : list string :=
  match s with
  | EmptyString => [EmptyString]
  | String c s' =>
      if Ascii.eqb c sep then EmptyString :: strings_Split s' sep
      else match strings_Split s' sep with
           | piece :: pieces => String c piece :: pieces
           | [] => [String c EmptyString]
           end
  end.

Fixpoint strings_Join (elems : list string) (sep : string) : string :=
  match elems with
  | [] => ""
  | [e] => e
  | e :: elems' => e ++ sep ++ strings_Join elems' sep
  end.

(** ** File names *)

Definition GetFileExtension (fileName : string) : string :=
  if decide (fileName = "") then ""
  else
    let parts := strings_Split fileName "."%char in
    if decide (length parts = 0%nat) then ""
    else default "" (parts !! (length parts - 1)%nat).

Definition GetFileNameWithoutExtension (fileName : string) : string :=
  if decide (fileName = "") then ""
  else
    let parts := strings_Split fileName "."%char in
    if decide (length parts = 0%nat) then ""
    else strings_Join (take (length parts - 1) parts) ".".

(** ** Content type *)

(** [mimetype.Detect] is a library call: the text of the MIME type it
    detects ([mtype.String()]) is a parameter.  [input] is the slice:
    [None] is nil, which an empty slice is not. *)
Definition GetFileContentTypeByBytes (mimetype_Detect : list Byte.byte -> string)
    (input : option (list Byte.byte)) : string * option chain :=
  match input with
  | None =>
      ("", Some (Wrapped (Predefined ErrInvalidReader)
                   "storage.GetFileContentTypeByBytes"))
  | Some bytes =>
      let parts := strings_Split (mimetype_Detect bytes) ";"%char in
      (default "" (parts !! 0%nat), None)
  end.

(** [mimetype.DetectReader] answers the text of the MIME type or an
    error. *)
Definition GetFileContentType {F : Type}
    (mimetype_DetectReader : F -> string + string) (input : option F)
    : string * option chain :=
  match input with
  | None =>
      ("", Some (Wrapped (Predefined ErrInvalidReader)
                   "storage.GetFileContentType"))
  | Some reader =>
      match mimetype_DetectReader reader with
      | inr err => ("", Some (Wrapped (Foreign err) "storage.GetFileContentType"))
      | inl mtype =>
          let parts := strings_Split mtype ";"%char in
          (default "" (parts !! 0%nat), None)
      end
  end.

(** ** Public URL of a file *)

Definition FileURL (i : Interactor) (filepath : string) : string :=
  if forcePathStyle i
  then fileEndpoint i ++ "/" ++ bucket i ++ "/" ++ filepath
  else fileEndpoint i ++ "/" ++ filepath.

(** ** Occurrences of a byte, and concrete inputs *)

(** [has_byte c s]: the byte [c] occurs in [s]. *)
Fixpoint has_byte (c : Ascii.ascii) (s : string) : bool :=
  match s with
  | EmptyString => false
  | String c' s' => Ascii.eqb c' c || has_byte c s'
  end.

(** A reader over five bytes, three of them read. *)
Definition five_bytes : bytes_Reader :=
  {| reader_bytes := [Byte.x68; Byte.x65; Byte.x6c; Byte.x6c; Byte.x6f];
     reader_position := 3 |}.

(** An interactor that addresses the bucket by path. *)
Definition a_path_style_interactor : Interactor := {|
  s3 := accepting_S3;
  bucket := "bucket";
  fileEndpoint := "https://files.example";
  forcePathStyle := true
|}.

End storage_helpers.

(* ===================================================================== *)
(** * Package gofs: calls, their errors and well-formed stores            *)
(* ===================================================================== *)

Module gofs_calls.
Import gofs.

(** The key that a call names. *)
Definition call_key (c : call) : string :=
  match c with
  | CallCreateUpload key _ _ | CallAddPart key _ _ | CallCompleteUpload key
  | CallAbortUpload key | CallGetUploadID key | CallGetParts key
  | CallGetStatus key => key
  end.

(** The error that a call returns ([None] for nil). *)
Definition call_error (c : call) (db : inMemoryDB) : option error :=
  match c with
  | CallCreateUpload key uploadID totalParts =>
      (CreateUpload key uploadID totalParts db).1
  | CallAddPart key partNumber eTag => (AddPart key partNumber eTag db).1
  | CallCompleteUpload key => (CompleteUpload key db).1
  | CallAbortUpload key => (AbortUpload key db).1
  | CallGetUploadID key => (GetUploadID key db).1.2
  | CallGetParts key => (GetParts key db).1.2
  | CallGetStatus key => (GetStatus key db).1.2
  end.

(** A call that only reads. *)
Definition is_query (c : call) : bool :=
  match c with
  | CallGetUploadID _ | CallGetParts _ | CallGetStatus _ => true
  | _ => false
  end.

(** One [AddPart] of [key] for each part number and tag of [l], in the
    order of [l]. *)
Definition add_parts (key : string) (l : list (Z * string)) : list call :=
  (fun part => CallAddPart key part.1 part.2) <$> l.

(** Every record sits under a non-empty key, declares between 1 and 10000
    parts, and stores each part under the part's own number. *)
Definition well_formed (db : inMemoryDB) : Prop :=
  forall key record,
    records db !! key = Some record ->
    key <> ""
    /\ 1 <= totalParts record <= 10000
    /\ forall pn part, parts record !! pn = Some part -> partNumber part = pn.

(** A store with two uploads: ["k"], one part of one received, and ["f"],
    nothing of three received. *)
Definition two_uploads : inMemoryDB :=
  {| records := {[ "k" := mkRecord "u" 1 {[ 1 := mkPart 1 "a" ]};
                   "f" := mkRecord "v" 3 ∅ ]} |}.

End gofs_calls.

(* ===================================================================== *)
(** * Package storage: starting and aborting a multipart upload           *)
(* ===================================================================== *)

Module storage_sessions.
Import storage.

(** The string behind an [ACL]. *)
Abbreviation ACL := string (only parsing).

Record CreateMultipartUploadInput : Type := {
  create_ACL : string;
  create_Bucket : string;
  create_Key : string;
  create_ContentType : string
}.

(** [create_UploadId] is a pointer in the SDK and may be nil. *)
Record CreateMultipartUploadOutput : Type := {
  create_UploadId : option string
}.

Record AbortMultipartUploadInput : Type := {
  abort_Bucket : string;
  abort_Key : string;
  abort_UploadId : string
}.

(** A request to start or to abort a multipart upload that reached the
    object store. *)
Inductive session_request : Type :=
| ReqCreateMultipartUpload (params : CreateMultipartUploadInput)
| ReqAbortMultipartUpload (params : AbortMultipartUploadInput).

(** The part of the SDK behind [CreateMultipartUpload] and
    [AbortMultipartUpload], a parameter like [S3]: the validation of the
    parameters and the answers of the object store. *)
Record S3_sessions : Type := {
  CreateMultipartUploadInput_Validate :
    CreateMultipartUploadInput -> option string;
  AbortMultipartUploadInput_Validate :
    AbortMultipartUploadInput -> option string;
  S3_CreateMultipartUpload :
    list session_request -> CreateMultipartUploadInput
    -> CreateMultipartUploadOutput + string;
  S3_AbortMultipartUpload :
    list session_request -> AbortMultipartUploadInput -> option string
}.

Definition CreateMultipartUpload (client : S3_sessions) (i : Interactor)
    (filename contentType : string) (acl : ACL) (log : list session_request)
    : result string * list session_request :=
  let input :=
    {| create_ACL := acl; create_Bucket := bucket i; create_Key := filename;
       create_ContentType := contentType |} in
  match CreateMultipartUploadInput_Validate client input with
  | Some err =>
      (Fail (Wrap err "storage.createMultipartUpload: invalid params"), log)
  | None =>
      let log' := (log ++ [ReqCreateMultipartUpload input])%list in
      match S3_CreateMultipartUpload client log input with
      | inr err => (Fail (Wrap err "storage.createMultipartUpload"), log')
      | inl output =>
          match create_UploadId output with
          | None => (Fail ErrMissedUploadID, log')
          | Some uploadID => (Return uploadID, log')
          end
      end
  end.

Definition AbortMultipartUpload (client : S3_sessions) (i : Interactor)
    (filename uploadID : string) (log : list session_request)
    : result unit * list session_request :=
  if decide (uploadID = "") then (Fail ErrMissedUploadID, log)
  else
    let params :=
      {| abort_Bucket := bucket i; abort_Key := filename;
         abort_UploadId := uploadID |} in
    match AbortMultipartUploadInput_Validate client params with
    | Some err =>
        (Fail (Wrap err "storage.abortMultipartUpload: invalid params"), log)
    | None =>
        let log' := (log ++ [ReqAbortMultipartUpload params])%list in
        match S3_AbortMultipartUpload client log params with
        | Some err => (Fail (Wrap err "storage.abortMultipartUpload"), log')
        | None => (Return tt, log')
        end
    end.

(** An object store that starts an upload without naming it. *)
Definition nameless_sessions : S3_sessions := {|
  CreateMultipartUploadInput_Validate _ := None;
  AbortMultipartUploadInput_Validate _ := None;
  S3_CreateMultipartUpload _ _ := inl {| create_UploadId := Some "" |};
  S3_AbortMultipartUpload _ _ := None
|}.

End storage_sessions.

(* ===================================================================== *)
(** * The tracking store's contract                                      *)
(* ===================================================================== *)

Module StoreContract.
Import gofs.

(** ** Basic facts about the operations *)

Lemma run_snoc cs c db : run (cs ++ [c]) db = step c (run cs db).
Proof. unfold run. by rewrite foldl_app. Qed.

Lemma added_parts_snoc key cs c :
  added_parts key (cs ++ [c]) =
  match c with
  | CallAddPart key' partNumber _ =>
      if decide (key' = key) then {[partNumber]} ∪ added_parts key cs
      else added_parts key cs
  | _ => added_parts key cs
  end.
Proof. unfold added_parts. by rewrite foldl_app. Qed.

Lemma last_tag_snoc key pn cs c :
  last_tag key pn (cs ++ [c]) =
  match c with
  | CallAddPart key' partNumber' eTag =>
      if decide (key' = key /\ partNumber' = pn) then Some eTag
      else last_tag key pn cs
  | _ => last_tag key pn cs
  end.
Proof. unfold last_tag. by rewrite foldl_app. Qed.

Lemma db_eta db : {| records := records db |} = db.
Proof. by destruct db. Qed.

Lemma CreateUpload_ok key uploadID totalParts db :
  key <> "" -> 1 <= totalParts <= 10000 -> records db !! key = None ->
  CreateUpload key uploadID totalParts db =
  (None, {| records := <[key := mkRecord uploadID totalParts ∅]> (records db) |}).
Proof.
  intros Hkey Hrange Hfree. unfold CreateUpload.
  destruct (decide (key = "")) as [|_]; [done|].
  replace ((totalParts <=? 0) || (10000 <? totalParts))%Z with false by lia.
  by rewrite Hfree.
Qed.

(** A successful [CreateUpload] had valid arguments and a free key. *)
Lemma CreateUpload_ok_inv key uploadID totalParts db :
  (CreateUpload key uploadID totalParts db).1 = None ->
  key <> "" /\ 1 <= totalParts <= 10000 /\ records db !! key = None.
Proof.
  unfold CreateUpload. destruct (decide (key = "")) as [|Hkey]; [done|].
  destruct ((totalParts <=? 0) || (10000 <? totalParts))%Z eqn:Hrange; [done|].
  destruct (records db !! key) eqn:Hfree; [done|]. intros _.
  repeat split; [done|lia|lia].
Qed.

(** Calls on other keys, and calls on [key] other than [CompleteUpload] and
    [AbortUpload], keep a record for [key]. *)
Lemma step_lookup_other key c db :
  match c with
  | CallCreateUpload key' _ _ | CallAddPart key' _ _
  | CallCompleteUpload key' | CallAbortUpload key' => key' <> key
  | _ => True
  end ->
  records (step c db) !! key = records db !! key.
Proof.
  destruct c as [key' u n|key' pn e|key'|key'|key'|key'|key']; simpl; intros Hne.
  - unfold CreateUpload. repeat case_match; simpl; try done.
    by rewrite lookup_insert_ne.
  - unfold AddPart. case_match; simpl; [|done]. by rewrite lookup_insert_ne.
  - unfold CompleteUpload. case_match; simpl; [|done]. by rewrite lookup_delete_ne.
  - by rewrite lookup_delete_ne.
  - unfold GetUploadID. by case_match.
  - unfold GetParts. by case_match.
  - unfold GetStatus. by case_match.
Qed.

(** What a sequence of calls that never completes or aborts [key] does to a
    record of [key]: identifier and declared size stay, and the parts are
    the old ones overwritten by the parts added, last write winning. *)
Lemma run_keeps_record key cs : forall db record,
  records db !! key = Some record ->
  forallb (fun c => negb (ends_upload key c)) cs = true ->
  exists record',
    records (run cs db) !! key = Some record'
    /\ uploadID record' = uploadID record
    /\ totalParts record' = totalParts record
    /\ (forall pn, parts record' !! pn =
          match last_tag key pn cs with
          | Some eTag => Some (mkPart pn eTag)
          | None => parts record !! pn
          end)
    /\ dom (parts record') = dom (parts record) ∪ added_parts key cs.
Proof.
  induction cs as [|c cs IH] using rev_ind; intros db record Hrec Hkeep.
  - exists record. repeat split; try done. unfold added_parts; simpl. set_solver.
  - rewrite forallb_app in Hkeep. apply andb_prop in Hkeep as [Hkeep Hc].
    simpl in Hc. rewrite andb_true_r in Hc. apply negb_true_iff in Hc.
    destruct (IH db record Hrec Hkeep) as (r & Hr & Hid & Htot & Hparts & Hdom).
    rewrite run_snoc.
    destruct c as [key' u n|key' pn e|key'|key'|key'|key'|key'];
      rewrite ?added_parts_snoc; setoid_rewrite last_tag_snoc;
      cbn [ends_upload] in Hc.
    + destruct (decide (key' = key)) as [->|Hne].
      * exists r. cbn [step]. unfold CreateUpload. rewrite Hr.
        repeat case_match; simpl; repeat split; done.
      * exists r. rewrite (step_lookup_other key (CallCreateUpload key' u n)); done.
    + destruct (decide (key' = key)) as [->|Hne].
      * cbn [step]. unfold AddPart. rewrite Hr. simpl. rewrite lookup_insert_eq.
        eexists. split; [done|]. simpl. repeat split; try done.
        -- intros pn'. destruct (decide (pn = pn')) as [->|Hpn].
           ++ rewrite lookup_insert_eq. by rewrite decide_True.
           ++ rewrite lookup_insert_ne by done.
              rewrite decide_False by naive_solver. apply Hparts.
        -- rewrite dom_insert_L, Hdom. set_solver.
      * exists r. rewrite (step_lookup_other key (CallAddPart key' pn e)) by done.
        repeat split; try done.
        intros pn'. rewrite decide_False by naive_solver. apply Hparts.
    + apply bool_decide_eq_false in Hc. exists r.
      rewrite (step_lookup_other key (CallCompleteUpload key')); done.
    + apply bool_decide_eq_false in Hc. exists r.
      rewrite (step_lookup_other key (CallAbortUpload key')); done.
    + exists r. rewrite (step_lookup_other key (CallGetUploadID key')); done.
    + exists r. rewrite (step_lookup_other key (CallGetParts key')); done.
    + exists r. rewrite (step_lookup_other key (CallGetStatus key')); done.
Qed.


(** Re-adding a part number that is present replaces its tag and leaves the
    number of completed parts as it was. *)
Lemma AddPart_again key pn eTag db record :
  records db !! key = Some record -> is_Some (parts record !! pn) ->
  exists record',
    records (AddPart key pn eTag db).2 !! key = Some record'
    /\ parts record' !! pn = Some (mkPart pn eTag)
    /\ CompletedPartsNum record' = CompletedPartsNum record.
Proof.
  intros Hrec [old Hold]. unfold AddPart. rewrite Hrec. simpl.
  rewrite lookup_insert_eq. eexists. split; [done|]. simpl.
  split; [by rewrite lookup_insert_eq|].
  f_equal. apply map_size_insert_Some. by exists old.
Qed.

(** ** The store's contract *)

(** C1. After a successful [CreateUpload key _ totalParts], and as long as
    no [CompleteUpload] or [AbortUpload] of [key] is called, [GetStatus key]
    succeeds whatever other calls are made, and the status it returns has
    [CompletedPartsNum] equal to the number of distinct part numbers passed
    to [AddPart] for [key] since the creation, [TotalParts] equal to
    [totalParts], and [IsCompleted] true exactly when that number equals
    [totalParts]; each part present carries the tag of the last [AddPart]
    of its number, so that re-adding a part number replaces the tag and
    does not change the count. *)
Theorem GetStatus_counts_distinct_parts :
  forall (db : inMemoryDB) (key uploadID : string) (totalParts : int64)
         (cs : list call),
    (CreateUpload key uploadID totalParts db).1 = None ->
    forallb (fun c => negb (ends_upload key c)) cs = true ->
    exists status : inMemoryRecord,
      (GetStatus key (run cs (CreateUpload key uploadID totalParts db).2)).1
        = (Some status, None)
      /\ CompletedPartsNum status = Z.of_nat (size (added_parts key cs))
      /\ TotalParts status = totalParts
      /\ (IsCompleted status = true <->
          Z.of_nat (size (added_parts key cs)) = totalParts)
      /\ (forall pn, parts status !! pn = mkPart pn <$> last_tag key pn cs).
Proof.
  intros db key u n cs Hok Hkeep.
  destruct (CreateUpload_ok_inv _ _ _ _ Hok) as (Hkey & Hrange & Hfree).
  rewrite CreateUpload_ok by done. simpl.
  destruct (run_keeps_record key cs
              {| records := <[key := mkRecord u n ∅]> (records db) |}
              (mkRecord u n ∅))
    as (r & Hr & _ & Htot & Hparts & Hdom); [apply lookup_insert_eq|exact Hkeep|].
  simpl in *. exists r. unfold GetStatus. rewrite Hr. simpl.
  assert (Hsize : size (parts r) = size (added_parts key cs)).
  { rewrite <- size_dom, Hdom, dom_empty_L. f_equal. set_solver. }
  rewrite Hsize, Htot. split; [done|]. split; [done|]. split; [done|].
  split; [apply Z.eqb_eq|].
  intros pn. rewrite Hparts, lookup_empty. by destruct (last_tag key pn cs).
Qed.

(** C2. [CreateUpload] fails with an InvalidArgument-class error when the
    key is empty (whatever the other arguments) or when [totalParts <= 0] or
    [totalParts > 10000]; for a non-empty key that the store does not hold,
    [totalParts = 1] and [totalParts = 10000] succeed. *)
Theorem CreateUpload_argument_validation :
  forall (db : inMemoryDB) (key uploadID : string) (totalParts : int64),
    (key = "" \/ totalParts <= 0 \/ totalParts > 10000 ->
     exists e, (CreateUpload key uploadID totalParts db).1 = Some e
               /\ InvalidArgument e)
    /\ (key <> "" -> records db !! key = None ->
        totalParts = 1 \/ totalParts = 10000 ->
        (CreateUpload key uploadID totalParts db).1 = None).
Proof.
  intros db key u n. split.
  - intros Hbad. unfold CreateUpload, InvalidArgument.
    destruct (decide (key = "")) as [|Hkey]; [by eauto|].
    replace ((n <=? 0) || (10000 <? n))%Z with true by (destruct Hbad; [done|lia]).
    by eauto.
  - intros Hkey Hfree Hn. rewrite CreateUpload_ok; [done|done|lia|done].
Qed.

(** C3. On a key without a record, [AddPart], [GetUploadID], [GetParts],
    [GetStatus] and [CompleteUpload] fail with [ErrNotFound] and
    [AbortUpload] returns no error, and all six leave the store as it was;
    on any key, [AbortUpload] returns no error, the key has no record
    afterwards and the records of all other keys are untouched. *)
Theorem no_record_NotFound_and_AbortUpload :
  forall (db : inMemoryDB) (key : string),
    (records db !! key = None ->
       (forall pn eTag, AddPart key pn eTag db = (Some ErrNotFound, db))
       /\ GetUploadID key db = (("", Some ErrNotFound), db)
       /\ GetParts key db = (([], Some ErrNotFound), db)
       /\ GetStatus key db = ((None, Some ErrNotFound), db)
       /\ CompleteUpload key db = (Some ErrNotFound, db)
       /\ AbortUpload key db = (None, db))
    /\ (AbortUpload key db).1 = None
    /\ records (AbortUpload key db).2 !! key = None
    /\ (forall key', key' <> key ->
          records (AbortUpload key db).2 !! key' = records db !! key').
Proof.
  intros db key. split; [intros Hnone|].
  - unfold AddPart, GetUploadID, GetParts, GetStatus, CompleteUpload, AbortUpload.
    rewrite Hnone. repeat split.
    by rewrite delete_id, db_eta.
  - unfold AbortUpload; simpl. repeat split.
    + apply lookup_delete_eq.
    + intros key' Hne. by apply lookup_delete_ne.
Qed.

(** C4. A [CreateUpload] with valid arguments on a key that has a record
    fails with [ErrAlreadyExists] and returns the store it was given: the
    record of the key keeps its upload identifier, its declared number of
    parts and its parts. *)
Theorem CreateUpload_twice_AlreadyExists :
  forall (db : inMemoryDB) (key uploadID' : string) (totalParts' : int64)
         (record : inMemoryRecord),
    records db !! key = Some record ->
    key <> "" -> 1 <= totalParts' <= 10000 ->
    CreateUpload key uploadID' totalParts' db = (Some ErrAlreadyExists, db)
    /\ records (CreateUpload key uploadID' totalParts' db).2 !! key = Some record.
Proof.
  intros db key u n r Hrec Hkey Hrange.
  assert (CreateUpload key u n db = (Some ErrAlreadyExists, db)) as ->; [|done].
  unfold CreateUpload. destruct (decide (key = "")) as [|_]; [done|].
  replace ((n <=? 0) || (10000 <? n))%Z with false by lia.
  by rewrite Hrec.
Qed.

(** C5. [CompleteUpload] on a key with a record succeeds whatever parts the
    record holds (none, some or all of the declared ones); afterwards
    [GetStatus], [GetUploadID] and [GetParts] of the key fail with
    [ErrNotFound], and every other key has the record it had. *)
Theorem CompleteUpload_removes_record :
  forall (db : inMemoryDB) (key : string) (record : inMemoryRecord),
    records db !! key = Some record ->
    (CompleteUpload key db).1 = None
    /\ (GetStatus key (CompleteUpload key db).2).1 = (None, Some ErrNotFound)
    /\ (GetUploadID key (CompleteUpload key db).2).1 = ("", Some ErrNotFound)
    /\ (GetParts key (CompleteUpload key db).2).1 = ([], Some ErrNotFound)
    /\ (forall key', key' <> key ->
          records (CompleteUpload key db).2 !! key' = records db !! key').
Proof.
  intros db key r Hrec. unfold CompleteUpload. rewrite Hrec. simpl.
  unfold GetStatus, GetUploadID, GetParts. simpl. rewrite lookup_delete_eq.
  repeat split. intros key' Hne. by apply lookup_delete_ne.
Qed.

(** C9. For a non-empty key that the store does not hold and [totalParts]
    in [1..10000], [CreateUpload key uploadID totalParts] succeeds and
    [GetUploadID key] on the resulting store returns [uploadID]. *)
Theorem CreateUpload_then_GetUploadID :
  forall (db : inMemoryDB) (key uploadID : string) (totalParts : int64),
    key <> "" -> records db !! key = None -> 1 <= totalParts <= 10000 ->
    (CreateUpload key uploadID totalParts db).1 = None
    /\ (GetUploadID key (CreateUpload key uploadID totalParts db).2).1
       = (uploadID, None).
Proof.
  intros db key u n Hkey Hfree Hrange. rewrite CreateUpload_ok by done.
  split; [done|]. unfold GetUploadID. simpl. by rewrite lookup_insert_eq.
Qed.

(** C10. [CreateUpload] checks the key first, then the range of
    [totalParts], and only then whether the key has a record: with an empty
    key it returns [ErrFileKeyEmpty], with a non-empty key and [totalParts]
    outside [1..10000] it returns [ErrInvalidTotalParts], in both cases
    also when the store holds a record for the key (so never
    [ErrAlreadyExists]), and the store is returned as it was. *)
Theorem CreateUpload_validation_precedence :
  forall (db : inMemoryDB) (key uploadID : string) (totalParts : int64),
    (key = "" ->
     CreateUpload key uploadID totalParts db = (Some ErrFileKeyEmpty, db))
    /\ (key <> "" -> totalParts <= 0 \/ totalParts > 10000 ->
        CreateUpload key uploadID totalParts db = (Some ErrInvalidTotalParts, db)).
Proof.
  intros db key u n. unfold CreateUpload. split.
  - intros ->. done.
  - intros Hkey Hrange. destruct (decide (key = "")) as [|_]; [done|].
    by replace ((n <=? 0) || (10000 <? n))%Z with true by lia.
Qed.


(** ** Part numbers and the declared number of parts *)

Lemma step_parts_in_range c db :
  parts_in_range db -> in_declared_range c db = true ->
  parts_in_range (step c db).
Proof.
  intros Hinv Hc key r pn.
  destruct c as [key' u n|key' pn' e|key'|key'|key'|key'|key']; cbn [step].
  - unfold CreateUpload. repeat case_match; simpl; try apply Hinv.
    destruct (decide (key' = key)) as [->|Hne].
    + rewrite lookup_insert_eq. intros [= <-]. simpl.
      rewrite lookup_empty. by intros [? ?].
    + rewrite lookup_insert_ne by done. apply Hinv.
  - unfold AddPart. simpl in Hc.
    destruct (records db !! key') as [r'|] eqn:Hr'; simpl; [|apply Hinv].
    destruct (decide (key' = key)) as [->|Hne].
    + rewrite lookup_insert_eq. intros [= <-]. simpl.
      destruct (decide (pn' = pn)) as [->|Hpn]; [lia|].
      rewrite lookup_insert_ne by done. apply (Hinv _ _ _ Hr').
    + rewrite lookup_insert_ne by done. apply Hinv.
  - unfold CompleteUpload. case_match; simpl; [|apply Hinv].
    intros Hr. apply lookup_delete_Some in Hr as [_ Hr]. apply (Hinv _ _ _ Hr).
  - simpl. intros Hr. apply lookup_delete_Some in Hr as [_ Hr]. apply (Hinv _ _ _ Hr).
  - unfold GetUploadID. case_match; apply Hinv.
  - unfold GetParts. case_match; apply Hinv.
  - unfold GetStatus. case_match; apply Hinv.
Qed.

Lemma run_parts_in_range cs : forall db,
  parts_in_range db -> adds_in_declared_range cs db = true ->
  parts_in_range (run cs db).
Proof.
  induction cs as [|c cs IH]; intros db Hinv Hcs; [done|].
  simpl in Hcs. apply andb_prop in Hcs as [Hc Hcs].
  change (run (c :: cs) db) with (run cs (step c db)).
  apply IH; [by apply step_parts_in_range|done].
Qed.

(** C6, as stated, fails: the store accepts any part number.  After
    [CreateUpload "k" "u" 1] and [AddPart "k" 5 "e"] the record of ["k"],
    declared with one part, holds part 5. *)
Lemma reachable_parts_out_of_range :
  ~ (forall db, reachable db -> parts_in_range db).
Proof.
  intros Hall.
  pose (cs := [CallCreateUpload "k" "u" 1; CallAddPart "k" 5 "e"]).
  assert (Hreach : reachable (run cs NewInMemoryDB)) by (by exists cs).
  specialize (Hall _ Hreach "k"
                (mkRecord "u" 1 (<[5 := mkPart 5 "e"]> ∅)) 5).
  assert (1 <= 5 <= 1) as [_ Habs]; [|lia].
  apply Hall.
  - vm_compute. reflexivity.
  - simpl. rewrite lookup_insert_eq. by eexists.
Qed.

(** C6, amended.  In a store built from the empty one by a sequence of
    calls in which every [AddPart] on a key that has a record passes a part
    number in [1..totalParts] of that record (the store does not check it;
    the orchestrator does before it sends the chunk), every part of every
    record has a number in [1..totalParts] of its record. *)
Theorem parts_in_range_when_adds_in_range :
  forall cs : list call,
    adds_in_declared_range cs NewInMemoryDB = true ->
    forall key record pn,
      records (run cs NewInMemoryDB) !! key = Some record ->
      is_Some (parts record !! pn) ->
      1 <= pn <= totalParts record.
Proof.
  intros cs Hcs. apply (run_parts_in_range cs NewInMemoryDB); [|done].
  intros key r pn. simpl. by rewrite lookup_empty.
Qed.


(** ** The contract at concrete stores *)

Example status_after_two_of_three :
  (GetStatus "k"
     (run [CallCreateUpload "k" "u" 3; CallAddPart "k" 1 "a";
           CallAddPart "k" 2 "b"] NewInMemoryDB)).1
  = (Some (mkRecord "u" 3 (<[2 := mkPart 2 "b"]> (<[1 := mkPart 1 "a"]> ∅))),
     None).
Proof. vm_compute. reflexivity. Qed.

Example completed_after_three_of_three :
  (fun status => (IsCompleted <$> status, CompletedPartsNum <$> status))
    (GetStatus "k"
       (run [CallCreateUpload "k" "u" 3; CallAddPart "k" 1 "a";
             CallAddPart "k" 2 "b"; CallAddPart "k" 3 "c"] NewInMemoryDB)).1.1
  = (Some true, Some 3).
Proof. vm_compute. reflexivity. Qed.

Lemma GetStatus_counts_distinct_parts_witness :
  (CreateUpload "k" "u" 3 NewInMemoryDB).1 = None
  /\ forallb (fun c => negb (ends_upload "k" c)) three_part_upload = true
  /\ exists status : inMemoryRecord,
      (GetStatus "k" (run three_part_upload
                        (CreateUpload "k" "u" 3 NewInMemoryDB).2)).1
        = (Some status, None)
      /\ CompletedPartsNum status
         = Z.of_nat (size (added_parts "k" three_part_upload))
      /\ TotalParts status = 3
      /\ (IsCompleted status = true <->
          Z.of_nat (size (added_parts "k" three_part_upload)) = 3)
      /\ (forall pn,
            parts status !! pn = mkPart pn <$> last_tag "k" pn three_part_upload).
Proof.
  split; [reflexivity|]. split; [reflexivity|].
  apply (GetStatus_counts_distinct_parts NewInMemoryDB "k" "u" 3
           three_part_upload); reflexivity.
Defined.

Lemma CreateUpload_argument_validation_witness :
  (exists e, (CreateUpload "" "u" 5 one_upload).1 = Some e /\ InvalidArgument e)
  /\ (exists e, (CreateUpload "f" "u" 10001 one_upload).1 = Some e
                /\ InvalidArgument e)
  /\ (CreateUpload "f" "u" 10000 one_upload).1 = None.
Proof.
  split; [|split].
  - apply (proj1 (CreateUpload_argument_validation one_upload "" "u" 5)).
    left. reflexivity.
  - apply (proj1 (CreateUpload_argument_validation one_upload "f" "u" 10001)).
    right. right. lia.
  - apply (proj2 (CreateUpload_argument_validation one_upload "f" "u" 10000)).
    + discriminate.
    + reflexivity.
    + right. reflexivity.
Defined.

Lemma no_record_NotFound_and_AbortUpload_witness :
  records one_upload !! "f" = None
  /\ CompleteUpload "f" one_upload = (Some ErrNotFound, one_upload)
  /\ AbortUpload "f" one_upload = (None, one_upload)
  /\ records (AbortUpload "k" one_upload).2 !! "k" = None.
Proof.
  split; [reflexivity|].
  pose proof (no_record_NotFound_and_AbortUpload one_upload "f") as [Hf _].
  pose proof (no_record_NotFound_and_AbortUpload one_upload "k")
    as (_ & _ & Hk & _).
  destruct Hf as (_ & _ & _ & _ & Hcomplete & Habort); [reflexivity|].
  split; [exact Hcomplete|]. split; [exact Habort|exact Hk].
Defined.

Lemma CreateUpload_twice_AlreadyExists_witness :
  records one_upload !! "k" = Some (mkRecord "u" 2 {[ 2 := mkPart 2 "b" ]})
  /\ "k" <> ""
  /\ 1 <= 7 <= 10000
  /\ CreateUpload "k" "v" 7 one_upload = (Some ErrAlreadyExists, one_upload)
  /\ records (CreateUpload "k" "v" 7 one_upload).2 !! "k"
     = Some (mkRecord "u" 2 {[ 2 := mkPart 2 "b" ]}).
Proof.
  split; [reflexivity|]. split; [discriminate|]. split; [lia|].
  apply (CreateUpload_twice_AlreadyExists one_upload "k" "v" 7);
    [reflexivity|discriminate|lia].
Defined.

Lemma CompleteUpload_removes_record_witness :
  records one_upload !! "k" = Some (mkRecord "u" 2 {[ 2 := mkPart 2 "b" ]})
  /\ (CompleteUpload "k" one_upload).1 = None
  /\ (GetStatus "k" (CompleteUpload "k" one_upload).2).1
     = (None, Some ErrNotFound).
Proof.
  split; [reflexivity|].
  destruct (CompleteUpload_removes_record one_upload "k"
              (mkRecord "u" 2 {[ 2 := mkPart 2 "b" ]}))
    as (Hok & Hstatus & _); [reflexivity|].
  split; [exact Hok|exact Hstatus].
Defined.

Lemma parts_in_range_when_adds_in_range_witness :
  adds_in_declared_range
    [CallCreateUpload "k" "u" 2; CallAddPart "k" 2 "b"; CallAddPart "k" 1 "a"]
    NewInMemoryDB = true
  /\ forall key record pn,
      records (run [CallCreateUpload "k" "u" 2; CallAddPart "k" 2 "b";
                    CallAddPart "k" 1 "a"] NewInMemoryDB) !! key = Some record ->
      is_Some (parts record !! pn) ->
      1 <= pn <= totalParts record.
Proof.
  split; [reflexivity|].
  apply (parts_in_range_when_adds_in_range
           [CallCreateUpload "k" "u" 2; CallAddPart "k" 2 "b";
            CallAddPart "k" 1 "a"]).
  reflexivity.
Defined.

Lemma CreateUpload_then_GetUploadID_witness :
  "f" <> "" /\ records one_upload !! "f" = None /\ 1 <= 10000 <= 10000
  /\ (CreateUpload "f" "id-1" 10000 one_upload).1 = None
  /\ (GetUploadID "f" (CreateUpload "f" "id-1" 10000 one_upload).2).1
     = ("id-1", None).
Proof.
  split; [discriminate|]. split; [reflexivity|]. split; [lia|].
  apply (CreateUpload_then_GetUploadID one_upload "f" "id-1" 10000);
    [discriminate|reflexivity|lia].
Defined.

Lemma CreateUpload_validation_precedence_witness :
  is_Some (records one_upload !! "k")
  /\ CreateUpload "k" "v" 0 one_upload = (Some ErrInvalidTotalParts, one_upload)
  /\ CreateUpload "" "v" 0 one_upload = (Some ErrFileKeyEmpty, one_upload).
Proof.
  split; [by eexists|]. split.
  - apply (proj2 (CreateUpload_validation_precedence one_upload "k" "v" 0));
      [discriminate|left; lia].
  - apply (proj1 (CreateUpload_validation_precedence one_upload "" "v" 0)).
    reflexivity.
Defined.

End StoreContract.

(* ===================================================================== *)
(** * The interactor's contract                                          *)
(* ===================================================================== *)

Module InteractorContract.
Import storage.

(** ** Sorting by part number *)

Section sort_Slice.
Context {A : Type} (number : A -> Z).

Local Abbreviation less := (fun a b : A => (number a <? number b)%Z).
Local Abbreviation ascending := (fun a b : A => number a <= number b).

Lemma insert_Permutation (x : A) (l : list A) : insert less x l ≡ₚ x :: l.
Proof.
  induction l as [|y l IH]; simpl; [done|].
  destruct (number x <? number y)%Z; [done|]. rewrite IH. apply Permutation_swap.
Qed.

Lemma insert_ascending (x : A) (l : list A) :
  StronglySorted ascending l -> StronglySorted ascending (insert less x l).
Proof.
  induction 1 as [|y l Hl IH Hy]; simpl.
  - repeat constructor.
  - destruct (number x <? number y)%Z eqn:Hxy; simpl in *.
    + apply Z.ltb_lt in Hxy. constructor; [by constructor|].
      constructor; [lia|]. eapply Forall_impl; [exact Hy|].
      simpl. intros z Hz. lia.
    + apply Z.ltb_ge in Hxy. constructor; [done|].
      rewrite insert_Permutation. by constructor.
Qed.

Lemma insert_all_Permutation (l sorted : list A) :
  foldl (fun sorted x => insert less x sorted) sorted l ≡ₚ sorted ++ l.
Proof.
  revert sorted. induction l as [|x l IH]; intros sorted; simpl.
  - by rewrite app_nil_r.
  - rewrite IH, insert_Permutation. simpl. apply Permutation_middle.
Qed.

Lemma insert_all_ascending (l sorted : list A) :
  StronglySorted ascending sorted ->
  StronglySorted ascending (foldl (fun sorted x => insert less x sorted) sorted l).
Proof.
  revert sorted. induction l as [|x l IH]; intros sorted Hsorted; simpl; [done|].
  by apply IH, insert_ascending.
Qed.

Lemma sort_Slice_Permutation (l : list A) : sort_Slice less l ≡ₚ l.
Proof. unfold sort_Slice. by rewrite insert_all_Permutation. Qed.

Lemma sort_Slice_ascending (l : list A) :
  StronglySorted ascending (sort_Slice less l).
Proof. apply insert_all_ascending. constructor. Qed.
End sort_Slice.

(** ** The interactor's contract *)

(** C7. With a non-empty upload identifier and at least one completed
    part, [CompleteMultipartUpload] builds the request from the given
    parts: the pairs of part number and tag of the request's parts are the
    pairs of [PartNumber] and [ETag] of the given parts, rearranged, and
    the request's parts are in ascending order of part number; when
    the SDK accepts the parameters that request is the one request sent to
    the object store, and when it rejects them nothing is sent.  Without
    parts the call fails with [ErrNoCompletedParts], with an empty upload
    identifier it fails with [ErrMissedUploadID], and in both cases nothing
    is sent. *)
Theorem CompleteMultipartUpload_sends_parts_in_order :
  forall (P : Type) (HP : CompletedPart P) (i : Interactor)
         (filename uploadID : string) (completedParts : list P)
         (log : list request),
    (uploadID = "" ->
     CompleteMultipartUpload i filename uploadID completedParts log
     = (Fail ErrMissedUploadID, log))
    /\ (uploadID <> "" -> completedParts = [] ->
        CompleteMultipartUpload i filename uploadID completedParts log
        = (Fail ErrNoCompletedParts, log))
    /\ (uploadID <> "" -> completedParts <> [] ->
        exists parts : list s3_CompletedPart,
          (fun part => (s3_PartNumber part, s3_ETag part)) <$> parts
          ≡ₚ (fun part => (PartNumber part, ETag part)) <$> completedParts
          /\ StronglySorted (fun a b => s3_PartNumber a <= s3_PartNumber b) parts
          /\ let params :=
               {| cmu_Bucket := bucket i; cmu_Key := filename;
                  cmu_UploadId := uploadID; cmu_Parts := parts |} in
             match CompleteMultipartUploadInput_Validate (s3 i) params with
             | Some err =>
                 CompleteMultipartUpload i filename uploadID completedParts log
                 = (Fail (Wrap err "storage.completeMultipartUpload: invalid params"),
                    log)
             | None =>
                 (CompleteMultipartUpload i filename uploadID completedParts log).2
                 = (log ++ [ReqCompleteMultipartUpload params])%list
             end).
Proof.
  intros P HP i filename uploadID completedParts log. split; [|split].
  - intros ->. reflexivity.
  - intros Hid ->. unfold CompleteMultipartUpload.
    by destruct (decide (uploadID = "")).
  - intros Hid Hparts.
    exists (to_s3 <$> sort_Slice (fun a b => (PartNumber a <? PartNumber b)%Z)
                        completedParts).
    split.
    { rewrite <- list_fmap_compose.
      by rewrite (sort_Slice_Permutation PartNumber). }
    split.
    { eapply StronglySorted_fmap; [|apply (sort_Slice_ascending PartNumber)].
      by intros x y. }
    unfold CompleteMultipartUpload.
    destruct (decide (uploadID = "")) as [|_]; [done|].
    destruct (decide (length completedParts = 0%nat)) as [Hlen|_].
    { by apply length_zero_iff_nil in Hlen. }
    simpl.
    destruct (CompleteMultipartUploadInput_Validate _ _); [done|].
    unfold bind, send. by destruct (S3_CompleteMultipartUpload _ _ _).
Qed.

(** What [UploadPart] checks before it sends the chunk, with a non-empty
    upload identifier: [totalParts] zero or above 10000 is
    [ErrTotalParts]; otherwise a part number outside [1..totalParts] is
    [ErrPartNum], which is also what every negative [totalParts] gives. *)
Lemma UploadPart_range_checks i filename uploadID data partNum totalParts log :
  uploadID <> "" ->
  (totalParts = 0 \/ totalParts > 10000 ->
   UploadPart i filename uploadID data partNum totalParts log
   = (Fail ErrTotalParts, log))
  /\ (totalParts <> 0 -> totalParts <= 10000 ->
      partNum < 1 \/ partNum > totalParts ->
      UploadPart i filename uploadID data partNum totalParts log
      = (Fail ErrPartNum, log))
  /\ (totalParts < 0 ->
      UploadPart i filename uploadID data partNum totalParts log
      = (Fail ErrPartNum, log)).
Proof.
  intros Hid. unfold UploadPart.
  destruct (decide (uploadID = "")) as [|_]; [done|].
  split; [|split].
  - intros Htotal.
    by replace ((totalParts =? 0) || (10000 <? totalParts))%Z with true by lia.
  - intros Hzero Hmax Hpart.
    replace ((totalParts =? 0) || (10000 <? totalParts))%Z with false by lia.
    by replace ((partNum <? 1) || (totalParts <? partNum))%Z with true by lia.
  - intros Hneg.
    replace ((totalParts =? 0) || (10000 <? totalParts))%Z with false by lia.
    by replace ((partNum <? 1) || (totalParts <? partNum))%Z with true by lia.
Qed.

(** C8 at [totalParts = -1], which is outside [1..10000]: [UploadPart]
    lets it pass the check of [totalParts] (which compares with zero, where
    the store's [CreateUpload] compares [<= 0]) and fails with
    [ErrPartNum], not with [ErrTotalParts]; nothing is sent. *)
Theorem UploadPart_negative_totalParts :
  forall (i : Interactor) (data : list Byte.byte) (log : list request),
    UploadPart i "file" "upload-id" data 1 (-1) log = (Fail ErrPartNum, log).
Proof. intros i data log. reflexivity. Qed.

(** ** The contract at a concrete interactor *)

Lemma CompleteMultipartUpload_sends_parts_in_order_witness :
  "upload-id" <> ""
  /\ [gofs.mkPart 2 "b"; gofs.mkPart 1 "a"] <> []
  /\ exists parts : list s3_CompletedPart,
      (fun part => (s3_PartNumber part, s3_ETag part)) <$> parts
      ≡ₚ [(2, "b"); (1, "a")]
      /\ StronglySorted (fun a b => s3_PartNumber a <= s3_PartNumber b) parts
      /\ (CompleteMultipartUpload an_interactor "file" "upload-id"
            [gofs.mkPart 2 "b"; gofs.mkPart 1 "a"] []).2
         = [ReqCompleteMultipartUpload
              {| cmu_Bucket := "bucket"; cmu_Key := "file";
                 cmu_UploadId := "upload-id"; cmu_Parts := parts |}].
Proof.
  split; [discriminate|]. split; [discriminate|].
  refine (proj2 (proj2 (CompleteMultipartUpload_sends_parts_in_order
                          gofs.inMemoryPart _ an_interactor "file" "upload-id"
                          [gofs.mkPart 2 "b"; gofs.mkPart 1 "a"] [])) _ _);
    discriminate.
Defined.

(** Part 2 is stored before part 1; the parts read back from the store are
    sent to the object store as part 1, then part 2. *)
Example parts_out_of_order_end_to_end :
  let db := gofs.run [gofs.CallCreateUpload "file" "upload-id" 2;
                      gofs.CallAddPart "file" 2 "b";
                      gofs.CallAddPart "file" 1 "a"] gofs.NewInMemoryDB in
  cmu_Parts <$>
    (match (CompleteMultipartUpload an_interactor "file" "upload-id"
              (gofs.GetParts "file" db).1.1 []).2 with
     | [ReqCompleteMultipartUpload params] => Some params
     | _ => None
     end)
  = Some [ {| s3_ETag := "a"; s3_PartNumber := 1 |};
           {| s3_ETag := "b"; s3_PartNumber := 2 |} ].
Proof. vm_compute. reflexivity. Qed.

End InteractorContract.

(* ===================================================================== *)
(** * More about the tracking store                                       *)
(* ===================================================================== *)

Module StoreProperties.
Import gofs gofs_calls StoreContract.

(** ** Failed calls and queries *)

(** X1. A call that returns an error leaves the store as it was, and so
    does every query ([GetUploadID], [GetParts], [GetStatus]), whatever it
    returns. *)
Theorem failed_call_or_query_keeps_store :
  forall (c : call) (db : inMemoryDB),
    call_error c db <> None \/ is_query c = true -> step c db = db.
Proof.
  intros c db.
  destruct c as [key u n|key pn e|key|key|key|key|key]; simpl;
    intros [Herr|Hq]; try done.
  - revert Herr. unfold CreateUpload. by repeat case_match.
  - revert Herr. unfold AddPart. by case_match.
  - revert Herr. unfold CompleteUpload. by case_match.
  - unfold GetUploadID. by case_match.
  - unfold GetUploadID. by case_match.
  - unfold GetParts. by case_match.
  - unfold GetParts. by case_match.
  - unfold GetStatus. by case_match.
  - unfold GetStatus. by case_match.
Qed.

Lemma failed_call_or_query_keeps_store_witness :
  (call_error (CallAddPart "g" 1 "a") two_uploads <> None
   \/ is_query (CallAddPart "g" 1 "a") = true)
  /\ step (CallAddPart "g" 1 "a") two_uploads = two_uploads.
Proof.
  assert (Herr : call_error (CallAddPart "g" 1 "a") two_uploads <> None
                 \/ is_query (CallAddPart "g" 1 "a") = true)
    by (left; discriminate).
  split; [exact Herr|].
  exact (failed_call_or_query_keeps_store (CallAddPart "g" 1 "a") two_uploads Herr).
Defined.

(** ** Well-formed stores *)

Lemma step_well_formed c db : well_formed db -> well_formed (step c db).
Proof.
  intros Hwf key r.
  destruct c as [key' u n|key' pn e|key'|key'|key'|key'|key']; cbn [step].
  - unfold CreateUpload.
    destruct (decide (key' = "")) as [|Hkey]; [apply Hwf|].
    destruct ((n <=? 0) || (10000 <? n))%Z eqn:Hn; [apply Hwf|].
    destruct (records db !! key') eqn:Hfree; [apply Hwf|]. simpl.
    destruct (decide (key' = key)) as [->|Hne].
    + rewrite lookup_insert_eq. intros [= <-]. simpl.
      split; [done|]. split; [lia|]. intros pn part. by rewrite lookup_empty.
    + rewrite lookup_insert_ne by done. apply Hwf.
  - unfold AddPart.
    destruct (records db !! key') as [r'|] eqn:Hr'; simpl; [|apply Hwf].
    destruct (Hwf _ _ Hr') as (Hkey & Hn & Hparts).
    destruct (decide (key' = key)) as [->|Hne].
    + rewrite lookup_insert_eq. intros [= <-]. simpl.
      split; [done|]. split; [done|]. intros pn' part.
      destruct (decide (pn = pn')) as [->|Hpn].
      * rewrite lookup_insert_eq. by intros [= <-].
      * rewrite lookup_insert_ne by done. apply Hparts.
    + rewrite lookup_insert_ne by done. apply Hwf.
  - unfold CompleteUpload. case_match; simpl; [|apply Hwf].
    intros Hr. apply lookup_delete_Some in Hr as [_ Hr]. by apply Hwf.
  - simpl. intros Hr. apply lookup_delete_Some in Hr as [_ Hr]. by apply Hwf.
  - unfold GetUploadID. case_match; apply Hwf.
  - unfold GetParts. case_match; apply Hwf.
  - unfold GetStatus. case_match; apply Hwf.
Qed.

Lemma run_well_formed cs db : well_formed db -> well_formed (run cs db).
Proof.
  induction cs as [|c cs IH] using rev_ind; [done|].
  intros Hwf. rewrite run_snoc. by apply step_well_formed, IH.
Qed.

(** X2. Every store built from the empty one by calls of the seven
    operations is well formed: no record under the empty key, every
    record's [totalParts] in [1..10000], and every part stored under its
    own part number. *)
Theorem reachable_well_formed :
  forall db : inMemoryDB, reachable db -> well_formed db.
Proof.
  intros db [cs ->]. apply run_well_formed.
  intros key r. simpl. by rewrite lookup_empty.
Qed.

Lemma reachable_well_formed_witness :
  reachable (run [CallCreateUpload "k" "u" 2; CallAddPart "k" 7 "x"]
               NewInMemoryDB)
  /\ well_formed (run [CallCreateUpload "k" "u" 2; CallAddPart "k" 7 "x"]
                    NewInMemoryDB).
Proof.
  assert (Hreach : reachable (run [CallCreateUpload "k" "u" 2;
                                   CallAddPart "k" 7 "x"] NewInMemoryDB))
    by (eexists; reflexivity).
  split; [exact Hreach|]. exact (reachable_well_formed _ Hreach).
Defined.

(** ** What a record keeps *)

(** X3. The upload identifier and the declared number of parts of a record
    never change: as long as the key is not completed or aborted, whatever
    calls are made (also failed attempts to create the key again),
    [GetUploadID] returns the identifier the record had and [GetStatus]
    reports the [TotalParts] it had. *)
Theorem uploadID_and_totalParts_never_change :
  forall (db : inMemoryDB) (key : string) (record : inMemoryRecord)
         (cs : list call),
    records db !! key = Some record ->
    forallb (fun c => negb (ends_upload key c)) cs = true ->
    (GetUploadID key (run cs db)).1 = (uploadID record, None)
    /\ exists status : inMemoryRecord,
        (GetStatus key (run cs db)).1 = (Some status, None)
        /\ TotalParts status = totalParts record.
Proof.
  intros db key r cs Hr Hkeep.
  destruct (run_keeps_record key cs db r Hr Hkeep) as (r' & Hr' & Hid & Htot & _).
  unfold GetUploadID, GetStatus. rewrite Hr'. simpl. rewrite Hid.
  split; [done|]. by exists r'.
Qed.

Lemma uploadID_and_totalParts_never_change_witness :
  records two_uploads !! "f" = Some (mkRecord "v" 3 ∅)
  /\ forallb (fun c => negb (ends_upload "f" c))
       [CallCreateUpload "f" "w" 9; CallAddPart "f" 2 "b"; CallAbortUpload "k"]
     = true
  /\ (GetUploadID "f"
        (run [CallCreateUpload "f" "w" 9; CallAddPart "f" 2 "b";
              CallAbortUpload "k"] two_uploads)).1 = ("v", None)
  /\ exists status : inMemoryRecord,
      (GetStatus "f"
         (run [CallCreateUpload "f" "w" 9; CallAddPart "f" 2 "b";
               CallAbortUpload "k"] two_uploads)).1 = (Some status, None)
      /\ TotalParts status = 3.
Proof.
  split; [reflexivity|]. split; [reflexivity|].
  apply (uploadID_and_totalParts_never_change two_uploads "f"
           (mkRecord "v" 3 ∅)); reflexivity.
Defined.

(** X4. Calls that name other keys do not touch a key: its record is the
    same after them as before, and with it what [GetUploadID] and
    [GetStatus] return for it and the error and, up to their order, the
    parts that [GetParts] returns for it. *)
Theorem calls_on_other_keys_keep_record :
  forall (db : inMemoryDB) (key : string) (cs : list call),
    forallb (fun c => negb (bool_decide (call_key c = key))) cs = true ->
    records (run cs db) !! key = records db !! key
    /\ (GetUploadID key (run cs db)).1 = (GetUploadID key db).1
    /\ (GetParts key (run cs db)).1.1 ≡ₚ (GetParts key db).1.1
    /\ (GetParts key (run cs db)).1.2 = (GetParts key db).1.2
    /\ (GetStatus key (run cs db)).1 = (GetStatus key db).1.
Proof.
  intros db key cs Hcs.
  assert (Hsame : records (run cs db) !! key = records db !! key).
  { induction cs as [|c cs IH] using rev_ind; [done|].
    rewrite forallb_app in Hcs. apply andb_prop in Hcs as [Hcs Hc].
    simpl in Hc. rewrite andb_true_r in Hc.
    apply negb_true_iff, bool_decide_eq_false in Hc.
    rewrite run_snoc, step_lookup_other; [by apply IH|].
    by destruct c. }
  split; [done|]. unfold GetUploadID, GetParts, GetStatus. rewrite Hsame.
  by destruct (records db !! key).
Qed.

Lemma calls_on_other_keys_keep_record_witness :
  forallb (fun c => negb (bool_decide (call_key c = "f")))
    [CallAddPart "k" 2 "b"; CallCompleteUpload "k"; CallCreateUpload "g" "w" 4]
  = true
  /\ records (run [CallAddPart "k" 2 "b"; CallCompleteUpload "k";
                   CallCreateUpload "g" "w" 4] two_uploads) !! "f"
     = records two_uploads !! "f".
Proof.
  split; [reflexivity|].
  apply (calls_on_other_keys_keep_record two_uploads "f"). reflexivity.
Defined.

(** ** The parts that GetParts returns *)

(** X5. After a successful [CreateUpload] and calls that do not complete or
    abort the key, [GetParts] returns without error a list with one part
    for each distinct part number added: no part number occurs twice, the
    length is the number of distinct part numbers, and a part is in the
    list exactly when its tag is the last one added for its number. *)
Theorem GetParts_returns_last_tags :
  forall (db : inMemoryDB) (key uploadID : string) (totalParts : int64)
         (cs : list call),
    (CreateUpload key uploadID totalParts db).1 = None ->
    forallb (fun c => negb (ends_upload key c)) cs = true ->
    exists l : list inMemoryPart,
      (GetParts key (run cs (CreateUpload key uploadID totalParts db).2)).1
        = (l, None)
      /\ NoDup (PartNumber <$> l)
      /\ length l = size (added_parts key cs)
      /\ (forall part, part ∈ l <->
            last_tag key (PartNumber part) cs = Some (ETag part)).
Proof.
  intros db key u n cs Hok Hkeep.
  destruct (CreateUpload_ok_inv _ _ _ _ Hok) as (Hkey & Hrange & Hfree).
  rewrite CreateUpload_ok by done. simpl.
  destruct (run_keeps_record key cs
              {| records := <[key := mkRecord u n ∅]> (records db) |}
              (mkRecord u n ∅))
    as (r & Hr & _ & _ & Hparts & Hdom); [apply lookup_insert_eq|exact Hkeep|].
  simpl in *. unfold GetParts. rewrite Hr. simpl. eexists. split; [done|].
  assert (Hown : forall pn part, parts r !! pn = Some part -> partNumber part = pn).
  { intros pn part. rewrite Hparts, lookup_empty.
    destruct (last_tag key pn cs); [|done]. by intros [= <-]. }
  split; [|split].
  - rewrite <- list_fmap_compose.
    rewrite (list_fmap_ext _ fst); [apply NoDup_fst_map_to_list|].
    intros i [pn part] Hi. simpl.
    apply Hown. apply elem_of_map_to_list.
    by eapply list_elem_of_lookup_2.
  - rewrite length_fmap, length_map_to_list, <- size_dom, Hdom, dom_empty_L.
    f_equal. set_solver.
  - intros [pn tag]. simpl. rewrite list_elem_of_fmap. split.
    + intros ([pn' part] & Heq & Hin). simpl in Heq. subst part.
      apply elem_of_map_to_list in Hin. pose proof (Hown _ _ Hin) as Hpn.
      simpl in Hpn. subst pn'. rewrite Hparts, lookup_empty in Hin.
      destruct (last_tag key pn cs); [|done]. by injection Hin as ->.
    + intros Hlast. exists (pn, mkPart pn tag). split; [done|].
      apply elem_of_map_to_list. by rewrite Hparts, Hlast.
Qed.

Lemma GetParts_returns_last_tags_witness :
  (CreateUpload "k" "u" 3 NewInMemoryDB).1 = None
  /\ forallb (fun c => negb (ends_upload "k" c)) three_part_upload = true
  /\ exists l : list inMemoryPart,
      (GetParts "k" (run three_part_upload
                       (CreateUpload "k" "u" 3 NewInMemoryDB).2)).1 = (l, None)
      /\ NoDup (PartNumber <$> l)
      /\ length l = size (added_parts "k" three_part_upload)
      /\ (forall part, part ∈ l <->
            last_tag "k" (PartNumber part) three_part_upload = Some (ETag part)).
Proof.
  split; [reflexivity|]. split; [reflexivity|].
  apply (GetParts_returns_last_tags NewInMemoryDB "k" "u" 3 three_part_upload);
    reflexivity.
Defined.

(** ** The order in which parts arrive *)

(** X6. The store after two [AddPart] calls on a key does not depend on
    their order when the part numbers differ; when they are the same, the
    store is the one that the second call alone gives (the last tag
    wins). *)
Theorem AddPart_order_and_last_write :
  forall (db : inMemoryDB) (key : string) (pn1 pn2 : int64) (tag1 tag2 : string),
    (pn1 <> pn2 ->
     (AddPart key pn2 tag2 (AddPart key pn1 tag1 db).2).2
     = (AddPart key pn1 tag1 (AddPart key pn2 tag2 db).2).2)
    /\ (AddPart key pn1 tag2 (AddPart key pn1 tag1 db).2).2
       = (AddPart key pn1 tag2 db).2.
Proof.
  intros db key pn1 pn2 tag1 tag2. unfold AddPart.
  destruct (records db !! key) as [r|] eqn:Hr; simpl.
  - rewrite !lookup_insert_eq. simpl. split.
    + intros Hne. rewrite !insert_insert_eq. do 3 f_equal.
      by apply insert_insert_ne.
    + by rewrite !insert_insert_eq.
  - by rewrite Hr.
Qed.

Lemma AddPart_order_and_last_write_witness :
  2 <> 3
  /\ (AddPart "f" 3 "c" (AddPart "f" 2 "b" two_uploads).2).2
     = (AddPart "f" 2 "b" (AddPart "f" 3 "c" two_uploads).2).2.
Proof.
  split; [lia|].
  apply (proj1 (AddPart_order_and_last_write two_uploads "f" 2 3 "b" "c")). lia.
Defined.

Lemma added_parts_add_parts key l :
  added_parts key (add_parts key l) = list_to_set l.*1.
Proof.
  induction l as [|[pn tag] l IH] using rev_ind; [done|].
  unfold add_parts in *. rewrite !fmap_app. simpl.
  rewrite added_parts_snoc, decide_True by done. rewrite IH. simpl.
  rewrite list_to_set_app_L. simpl. set_solver.
Qed.

Lemma add_parts_keep key l :
  forallb (fun c => negb (ends_upload key c)) (add_parts key l) = true.
Proof. induction l as [|part l IH]; [done|]. simpl. exact IH. Qed.

(** X7. When each of the part numbers [1..totalParts] is added once, in
    any order, to an upload just created, the upload is completed:
    [GetStatus] reports [IsCompleted] and [CompletedPartsNum] equal to
    [totalParts]. *)
Theorem all_parts_in_any_order_complete :
  forall (db : inMemoryDB) (key uploadID : string) (totalParts : int64)
         (l : list (Z * string)),
    (CreateUpload key uploadID totalParts db).1 = None ->
    l.*1 ≡ₚ seqZ 1 totalParts ->
    exists status : inMemoryRecord,
      (GetStatus key
         (run (add_parts key l) (CreateUpload key uploadID totalParts db).2)).1
        = (Some status, None)
      /\ IsCompleted status = true
      /\ CompletedPartsNum status = totalParts.
Proof.
  intros db key u n l Hok Hperm.
  destruct (CreateUpload_ok_inv _ _ _ _ Hok) as (Hkey & Hrange & Hfree).
  rewrite CreateUpload_ok by done. simpl.
  destruct (run_keeps_record key (add_parts key l)
              {| records := <[key := mkRecord u n ∅]> (records db) |}
              (mkRecord u n ∅))
    as (r & Hr & _ & Htot & _ & Hdom);
    [apply lookup_insert_eq|apply add_parts_keep|].
  simpl in *. exists r. unfold GetStatus. rewrite Hr. simpl.
  assert (Hsize : Z.of_nat (size (parts r)) = n).
  { rewrite <- size_dom, Hdom, dom_empty_L, added_parts_add_parts, Hperm.
    rewrite union_empty_l_L, size_list_to_set by apply NoDup_seqZ.
    rewrite length_seqZ. lia. }
  rewrite Hsize, Htot. split; [done|]. split; [|done]. by apply Z.eqb_eq.
Qed.

Lemma all_parts_in_any_order_complete_witness :
  (CreateUpload "g" "w" 3 two_uploads).1 = None
  /\ [(3, "c"); (1, "a"); (2, "b")].*1 ≡ₚ seqZ 1 3
  /\ exists status : inMemoryRecord,
      (GetStatus "g"
         (run (add_parts "g" [(3, "c"); (1, "a"); (2, "b")])
            (CreateUpload "g" "w" 3 two_uploads).2)).1 = (Some status, None)
      /\ IsCompleted status = true
      /\ CompletedPartsNum status = 3.
Proof.
  assert (Hperm : [(3, "c"); (1, "a"); (2, "b")].*1 ≡ₚ seqZ 1 3).
  { change ([3; 1; 2] ≡ₚ [1; 2; 3]).
    apply (Permutation_cons_app [1; 2] [] 3). reflexivity. }
  split; [reflexivity|]. split; [exact Hperm|].
  apply (all_parts_in_any_order_complete two_uploads "g" "w" 3);
    [reflexivity|exact Hperm].
Defined.

(** X8. [IsCompleted] compares the number of parts with [totalParts] for
    equality: adding a part number that is not yet present to a completed
    record gives a record that is not completed, with one part more. *)
Theorem AddPart_beyond_completion :
  forall (db : inMemoryDB) (key : string) (record : inMemoryRecord)
         (pn : int64) (tag : string),
    records db !! key = Some record ->
    IsCompleted record = true ->
    parts record !! pn = None ->
    exists record' : inMemoryRecord,
      (GetStatus key (AddPart key pn tag db).2).1 = (Some record', None)
      /\ IsCompleted record' = false
      /\ CompletedPartsNum record' = CompletedPartsNum record + 1.
Proof.
  intros db key r pn tag Hr Hdone Hnew. unfold AddPart, GetStatus.
  rewrite Hr. simpl. rewrite lookup_insert_eq. eexists. split; [done|].
  simpl in *. apply Z.eqb_eq in Hdone.
  rewrite map_size_insert_None by done. split; [|lia].
  apply Z.eqb_neq. lia.
Qed.

Lemma AddPart_beyond_completion_witness :
  records two_uploads !! "k" = Some (mkRecord "u" 1 {[ 1 := mkPart 1 "a" ]})
  /\ IsCompleted (mkRecord "u" 1 {[ 1 := mkPart 1 "a" ]}) = true
  /\ ({[ 1 := mkPart 1 "a" ]} : gmap Z inMemoryPart) !! 2 = None
  /\ exists record' : inMemoryRecord,
      (GetStatus "k" (AddPart "k" 2 "b" two_uploads).2).1 = (Some record', None)
      /\ IsCompleted record' = false
      /\ CompletedPartsNum record'
         = CompletedPartsNum (mkRecord "u" 1 {[ 1 := mkPart 1 "a" ]}) + 1.
Proof.
  split; [reflexivity|]. split; [reflexivity|]. split; [reflexivity|].
  apply (AddPart_beyond_completion two_uploads "k"
           (mkRecord "u" 1 {[ 1 := mkPart 1 "a" ]}) 2 "b"); reflexivity.
Defined.

(** ** Completion when part numbers are validated *)

(** X9. In a store built from the empty one by calls whose [AddPart]s pass
    part numbers in [1..totalParts] of the record they add to, no record
    has more parts than it declares, and a record is completed exactly when
    every part number of [1..totalParts] is present. *)
Theorem validated_parts_bound_and_completion :
  forall cs : list call,
    adds_in_declared_range cs NewInMemoryDB = true ->
    forall (key : string) (record : inMemoryRecord),
      records (run cs NewInMemoryDB) !! key = Some record ->
      CompletedPartsNum record <= TotalParts record
      /\ (IsCompleted record = true <->
          forall pn, 1 <= pn <= totalParts record ->
                     is_Some (parts record !! pn)).
Proof.
  intros cs Hcs key r Hr.
  assert (Hwf : well_formed (run cs NewInMemoryDB)).
  { apply run_well_formed. intros k r'. simpl. by rewrite lookup_empty. }
  destruct (Hwf _ _ Hr) as (_ & Htot & _).
  assert (Hin : parts_in_range (run cs NewInMemoryDB)).
  { apply run_parts_in_range; [|done].
    intros k r' pn. simpl. by rewrite lookup_empty. }
  set (all := list_to_set (seqZ 1 (totalParts r)) : gset Z).
  assert (Hall : size all = Z.to_nat (totalParts r)).
  { unfold all. rewrite size_list_to_set by apply NoDup_seqZ.
    apply length_seqZ. }
  assert (Hsub : dom (parts r) ⊆ all).
  { intros pn Hpn. apply elem_of_dom in Hpn.
    apply elem_of_list_to_set, elem_of_seqZ.
    pose proof (Hin _ _ _ Hr Hpn). lia. }
  pose proof (subseteq_size _ _ Hsub) as Hle. rewrite size_dom, Hall in Hle.
  simpl. split; [lia|]. rewrite Z.eqb_eq. split.
  - intros Hfull pn Hpn. apply elem_of_dom.
    rewrite (set_subseteq_size_eq _ _ Hsub).
    + apply elem_of_list_to_set, elem_of_seqZ. lia.
    + rewrite size_dom, Hall. lia.
  - intros Hevery.
    assert (all ⊆ dom (parts r)) as Hsup.
    { intros pn Hpn. apply elem_of_list_to_set, elem_of_seqZ in Hpn.
      apply elem_of_dom, Hevery. lia. }
    pose proof (subseteq_size _ _ Hsup) as Hge.
    rewrite size_dom, Hall in Hge. lia.
Qed.

Lemma validated_parts_bound_and_completion_witness :
  adds_in_declared_range
    [CallCreateUpload "k" "u" 2; CallAddPart "k" 2 "b"; CallAddPart "k" 2 "c"]
    NewInMemoryDB = true
  /\ forall (key : string) (record : inMemoryRecord),
      records (run [CallCreateUpload "k" "u" 2; CallAddPart "k" 2 "b";
                    CallAddPart "k" 2 "c"] NewInMemoryDB) !! key = Some record ->
      CompletedPartsNum record <= TotalParts record
      /\ (IsCompleted record = true <->
          forall pn, 1 <= pn <= totalParts record ->
                     is_Some (parts record !! pn)).
Proof.
  split; [reflexivity|].
  apply (validated_parts_bound_and_completion
           [CallCreateUpload "k" "u" 2; CallAddPart "k" 2 "b";
            CallAddPart "k" 2 "c"]).
  reflexivity.
Defined.

(** ** The end of an upload and what follows *)

(** X10. After [CompleteUpload] or [AbortUpload] of a key, the key can be
    created again with valid arguments, and the new record has the new
    identifier and declared number of parts and no parts: nothing of the
    earlier upload is left. *)
Theorem create_again_after_end_is_fresh :
  forall (db : inMemoryDB) (key uploadID : string) (totalParts : int64)
         (ended : inMemoryDB),
    key <> "" -> 1 <= totalParts <= 10000 ->
    ended = (CompleteUpload key db).2 /\ is_Some (records db !! key)
    \/ ended = (AbortUpload key db).2 ->
    (CreateUpload key uploadID totalParts ended).1 = None
    /\ (GetStatus key (CreateUpload key uploadID totalParts ended).2).1
       = (Some (mkRecord uploadID totalParts ∅), None)
    /\ (GetParts key (CreateUpload key uploadID totalParts ended).2).1
       = ([], None).
Proof.
  intros db key u n ended Hkey Hn Hended.
  assert (Hgone : records ended !! key = None).
  { destruct Hended as [[-> [r Hr]]| ->].
    - unfold CompleteUpload. rewrite Hr. simpl. apply lookup_delete_eq.
    - simpl. apply lookup_delete_eq. }
  rewrite CreateUpload_ok by done. simpl.
  unfold GetStatus, GetParts. simpl. rewrite lookup_insert_eq. simpl.
  by rewrite map_to_list_empty.
Qed.

Lemma create_again_after_end_is_fresh_witness :
  "k" <> "" /\ 1 <= 5 <= 10000
  /\ (CreateUpload "k" "w" 5 (CompleteUpload "k" two_uploads).2).1 = None
  /\ (GetStatus "k"
        (CreateUpload "k" "w" 5 (CompleteUpload "k" two_uploads).2).2).1
     = (Some (mkRecord "w" 5 ∅), None)
  /\ (GetParts "k"
        (CreateUpload "k" "w" 5 (CompleteUpload "k" two_uploads).2).2).1
     = ([], None).
Proof.
  split; [discriminate|]. split; [lia|].
  apply (create_again_after_end_is_fresh two_uploads "k" "w" 5);
    [discriminate|lia|].
  left. split; [reflexivity|]. by eexists.
Defined.

(** X11. [AbortUpload] can be repeated: a second abort of the key returns
    no error and the same store.  [CompleteUpload] cannot: right after a
    [CompleteUpload] or an [AbortUpload] of the key it fails with
    [ErrNotFound].  On a key that has a record the two leave the same
    store. *)
Theorem abort_repeats_complete_does_not :
  forall (db : inMemoryDB) (key : string),
    AbortUpload key (AbortUpload key db).2 = AbortUpload key db
    /\ (CompleteUpload key (CompleteUpload key db).2).1 = Some ErrNotFound
    /\ (CompleteUpload key (AbortUpload key db).2).1 = Some ErrNotFound
    /\ (is_Some (records db !! key) ->
        (CompleteUpload key db).2 = (AbortUpload key db).2).
Proof.
  intros db key. unfold AbortUpload. simpl. repeat split.
  - by rewrite delete_delete_eq.
  - unfold CompleteUpload. destruct (records db !! key) eqn:Hr; simpl.
    + by rewrite lookup_delete_eq.
    + by rewrite Hr.
  - unfold CompleteUpload. simpl. by rewrite lookup_delete_eq.
  - intros [r Hr]. unfold CompleteUpload. by rewrite Hr.
Qed.

Lemma abort_repeats_complete_does_not_witness :
  is_Some (records two_uploads !! "k")
  /\ (CompleteUpload "k" two_uploads).2 = (AbortUpload "k" two_uploads).2.
Proof.
  assert (Hk : is_Some (records two_uploads !! "k")) by (by eexists).
  split; [exact Hk|].
  exact (proj2 (proj2 (proj2 (abort_repeats_complete_does_not two_uploads "k")))
           Hk).
Defined.

End StoreProperties.

(* ===================================================================== *)
(** * More about the interactor                                           *)
(* ===================================================================== *)

Module InteractorProperties.
Import storage storage_helpers InteractorContract.

(** ** UploadPart *)

(** X12. [UploadPart] sends nothing or one request.  A request it sends is
    the one for the given file, upload identifier, part number and bytes,
    and it is sent only with a non-empty upload identifier and a part
    number in [1..totalParts] with [totalParts <= 10000]: no chunk with a
    part number outside [1..10000] reaches the object store. *)
Theorem UploadPart_sends_only_checked_parts :
  forall (i : Interactor) (filename uploadID : string) (data : list Byte.byte)
         (partNum totalParts : int64) (log : list request),
    (UploadPart i filename uploadID data partNum totalParts log).2 = log
    \/ ((UploadPart i filename uploadID data partNum totalParts log).2
        = (log ++ [ReqUploadPart
                     {| up_Bucket := bucket i; up_Key := filename;
                        up_UploadId := uploadID; up_PartNumber := partNum;
                        up_Body := data |}])%list
        /\ uploadID <> ""
        /\ 1 <= partNum <= totalParts
        /\ totalParts <= 10000).
Proof.
  intros i filename uploadID data partNum totalParts log. unfold UploadPart.
  destruct (decide (uploadID = "")) as [|Hid]; [by left|].
  destruct ((totalParts =? 0) || (10000 <? totalParts))%Z eqn:Htotal; [by left|].
  destruct ((partNum <? 1) || (totalParts <? partNum))%Z eqn:Hpart; [by left|].
  destruct (UploadPartInput_Validate _ _); [by left|].
  right. split; [|repeat split; [done|lia..]].
  unfold bind, send. destruct (S3_UploadPart _ _ _) as [[[tag|]]|err]; done.
Qed.

(** X13. When [UploadPart] returns a part, the part has the part number it
    was called with and the tag that the object store answered to the
    request for exactly that part; the arguments had passed the checks
    (non-empty upload identifier, part number in [1..totalParts],
    [totalParts <= 10000]) and that one request was sent. *)
Theorem UploadPart_returned_part :
  forall (i : Interactor) (filename uploadID : string) (data : list Byte.byte)
         (partNum totalParts : int64) (log : list request) (part : completedPart),
    (UploadPart i filename uploadID data partNum totalParts log).1 = Return part ->
    PartNumber part = partNum
    /\ S3_UploadPart (s3 i) log
         {| up_Bucket := bucket i; up_Key := filename; up_UploadId := uploadID;
            up_PartNumber := partNum; up_Body := data |}
       = inl {| up_ETag := Some (ETag part) |}
    /\ uploadID <> "" /\ 1 <= partNum <= totalParts /\ totalParts <= 10000
    /\ (UploadPart i filename uploadID data partNum totalParts log).2
       = (log ++ [ReqUploadPart
                    {| up_Bucket := bucket i; up_Key := filename;
                       up_UploadId := uploadID; up_PartNumber := partNum;
                       up_Body := data |}])%list.
Proof.
  intros i filename uploadID data partNum totalParts log part.
  unfold UploadPart.
  destruct (decide (uploadID = "")) as [|Hid]; [done|].
  destruct ((totalParts =? 0) || (10000 <? totalParts))%Z eqn:Htotal; [done|].
  destruct ((partNum <? 1) || (totalParts <? partNum))%Z eqn:Hpart; [done|].
  destruct (UploadPartInput_Validate _ _); [done|].
  unfold bind, send.
  destruct (S3_UploadPart _ _ _) as [[[tag|]]|err] eqn:Hanswer; try done.
  simpl. intros [= <-]. simpl. repeat split; try done; lia.
Qed.

Lemma UploadPart_returned_part_witness :
  (UploadPart an_interactor "file" "upload-id" [] 2 3 []).1
  = Return {| partNumber := 2; etag := "etag" |}
  /\ PartNumber {| partNumber := 2; etag := "etag" |} = 2
  /\ (UploadPart an_interactor "file" "upload-id" [] 2 3 []).2
     = [ReqUploadPart
          {| up_Bucket := "bucket"; up_Key := "file"; up_UploadId := "upload-id";
             up_PartNumber := 2; up_Body := [] |}].
Proof.
  assert (Hret : (UploadPart an_interactor "file" "upload-id" [] 2 3 []).1
                 = Return {| partNumber := 2; etag := "etag" |}) by reflexivity.
  split; [exact Hret|].
  destruct (UploadPart_returned_part an_interactor "file" "upload-id" [] 2 3 []
              {| partNumber := 2; etag := "etag" |} Hret)
    as (Hnum & _ & _ & _ & _ & Hsent).
  split; [exact Hnum|exact Hsent].
Defined.

(** ** The order of the completed parts *)

Lemma NoDup_fmap_eq {A B} (f : A -> B) (l : list A) (x y : A) :
  NoDup (f <$> l) -> x ∈ l -> y ∈ l -> f x = f y -> x = y.
Proof.
  induction l as [|a l IH]; simpl; [by intros _ ?%elem_of_nil|].
  rewrite NoDup_cons. intros [Ha Hl] Hx Hy Hxy.
  apply elem_of_cons in Hx as [->|Hx]; apply elem_of_cons in Hy as [->|Hy].
  - done.
  - destruct Ha. rewrite Hxy. by apply list_elem_of_fmap_2.
  - destruct Ha. rewrite <- Hxy. by apply list_elem_of_fmap_2.
  - by apply IH.
Qed.

Lemma sort_Slice_of_Permutation {A} (number : A -> Z) (l1 l2 : list A) :
  l1 ≡ₚ l2 -> NoDup (number <$> l1) ->
  sort_Slice (fun a b => (number a <? number b)%Z) l1
  = sort_Slice (fun a b => (number a <? number b)%Z) l2.
Proof.
  intros Hperm Hnodup.
  apply (StronglySorted_unique_strong (fun a b => number a <= number b)).
  - intros x1 x2 Hx1 Hx2 Hle Hge.
    rewrite (sort_Slice_Permutation number) in Hx1.
    rewrite (sort_Slice_Permutation number), <- Hperm in Hx2.
    apply (NoDup_fmap_eq number l1); [done..|lia].
  - apply (sort_Slice_ascending number).
  - apply (sort_Slice_ascending number).
  - by rewrite !(sort_Slice_Permutation number).
Qed.

(** X14. When no part number occurs twice among the completed parts,
    [CompleteMultipartUpload] does not depend on the order in which they
    are given: two arrangements of the same parts give the same result and
    send the same requests. *)
Theorem CompleteMultipartUpload_any_arrival_order :
  forall (P : Type) (HP : CompletedPart P) (i : Interactor)
         (filename uploadID : string) (parts1 parts2 : list P)
         (log : list request),
    parts1 ≡ₚ parts2 ->
    NoDup (PartNumber <$> parts1) ->
    CompleteMultipartUpload i filename uploadID parts1 log
    = CompleteMultipartUpload i filename uploadID parts2 log.
Proof.
  intros P HP i filename uploadID parts1 parts2 log Hperm Hnodup.
  unfold CompleteMultipartUpload.
  rewrite (sort_Slice_of_Permutation PartNumber parts1 parts2) by done.
  by rewrite (Permutation_length Hperm).
Qed.

Lemma CompleteMultipartUpload_any_arrival_order_witness :
  [gofs.mkPart 2 "b"; gofs.mkPart 1 "a"] ≡ₚ [gofs.mkPart 1 "a"; gofs.mkPart 2 "b"]
  /\ NoDup (PartNumber <$> [gofs.mkPart 2 "b"; gofs.mkPart 1 "a"])
  /\ CompleteMultipartUpload an_interactor "file" "upload-id"
       [gofs.mkPart 2 "b"; gofs.mkPart 1 "a"] []
     = CompleteMultipartUpload an_interactor "file" "upload-id"
         [gofs.mkPart 1 "a"; gofs.mkPart 2 "b"] [].
Proof.
  assert (Hperm : [gofs.mkPart 2 "b"; gofs.mkPart 1 "a"]
                  ≡ₚ [gofs.mkPart 1 "a"; gofs.mkPart 2 "b"])
    by apply Permutation_swap.
  assert (Hnodup : NoDup (PartNumber <$> [gofs.mkPart 2 "b"; gofs.mkPart 1 "a"])).
  { simpl. apply NoDup_cons. split; [|apply NoDup_singleton].
    intros Hin. apply list_elem_of_singleton in Hin. discriminate. }
  split; [exact Hperm|]. split; [exact Hnodup|].
  exact (CompleteMultipartUpload_any_arrival_order gofs.inMemoryPart _
           an_interactor "file" "upload-id" _ _ [] Hperm Hnodup).
Defined.

(** ** From the tracking store to the object store *)




End InteractorProperties.

(* ===================================================================== *)
(** * The helpers                                                         *)
(* ===================================================================== *)

Module HelperProperties.
Import storage storage_helpers.

(** ** Number of parts of a file *)

Lemma wrap64_id z : is_int64 z -> wrap64 z = z.
Proof.
  unfold is_int64, wrap64. intros Hz.
  rewrite Z.mod_small by lia. lia.
Qed.

(** X16. For a file whose size the reader reports as [size >= 0] and a part
    size [partSize > 0], [GetMaxFileParts] returns without error the least
    [n] with [n * partSize >= size] (zero for an empty file) and leaves the
    reader where the seek to the start put it.  The number is not capped:
    it exceeds 10000 whenever [size > 10000 * partSize]. *)
Theorem GetMaxFileParts_least_cover :
  forall (F : Type) (HF : ReadSeeker F) (f f1 f2 : F)
         (size pos partSize : int64),
    Seek f 0 SeekEnd = ((size, None), f1) ->
    Seek f1 0 SeekStart = ((pos, None), f2) ->
    0 <= size -> is_int64 size -> 0 < partSize ->
    exists n : int64,
      GetMaxFileParts (Some f) partSize = (Returns (n, None), Some f2)
      /\ 0 <= n
      /\ (n - 1) * partSize < size <= n * partSize
      /\ (10000 * partSize < size -> 10000 < n).
Proof.
  intros F HF f f1 f2 size pos partSize Hend Hstart Hsize Hint Hpart.
  unfold GetMaxFileParts, GetFileSize. rewrite Hend, Hstart.
  replace (partSize =? 0)%Z with false by lia.
  rewrite Z.quot_div_nonneg, Z.rem_mod_nonneg by lia.
  pose proof (Z.div_mod size partSize ltac:(lia)) as Hdiv.
  pose proof (Z.mod_pos_bound size partSize Hpart) as Hmod.
  assert (Hq : 0 <= size / partSize <= size).
  { split; [apply Z.div_pos; lia|]. apply Z.div_le_upper_bound; nia. }
  unfold is_int64 in Hint.
  rewrite (wrap64_id (size / partSize)) by (unfold is_int64; lia).
  destruct (size mod partSize =? 0)%Z eqn:Hrem.
  - apply Z.eqb_eq in Hrem. eexists. split; [done|]. nia.
  - apply Z.eqb_neq in Hrem.
    assert (size / partSize < size) by nia.
    rewrite wrap64_id by (unfold is_int64; lia).
    eexists. split; [done|]. nia.
Qed.

Lemma GetMaxFileParts_least_cover_witness :
  Seek five_bytes 0 SeekEnd
  = ((5, None), {| reader_bytes := reader_bytes five_bytes; reader_position := 5 |})
  /\ exists n : int64,
      GetMaxFileParts (Some five_bytes) 2
      = (Returns (n, None),
         Some {| reader_bytes := reader_bytes five_bytes; reader_position := 0 |})
      /\ 0 <= n
      /\ (n - 1) * 2 < 5 <= n * 2
      /\ (10000 * 2 < 5 -> 10000 < n).
Proof.
  split; [reflexivity|].
  apply (GetMaxFileParts_least_cover bytes_Reader _ five_bytes
           {| reader_bytes := reader_bytes five_bytes; reader_position := 5 |}
           {| reader_bytes := reader_bytes five_bytes; reader_position := 0 |}
           5 0 2); [reflexivity|reflexivity|lia|unfold is_int64; lia|lia].
Defined.

(** X17. [GetMaxFileParts] does not check the part size: with
    [partSize = 0] and a file whose size it could read it panics on the
    division.  A nil file is an error before anything else, also with
    [partSize = 0]. *)
Theorem GetMaxFileParts_zero_part_size :
  forall (F : Type) (HF : ReadSeeker F) (f f1 f2 : F) (size pos : int64),
    GetMaxFileParts (@None F) 0
    = (Returns (0, Some (Wrapped (Predefined ErrInvalidReader)
                           "storage.GetMaxFileParts")), None)
    /\ (Seek f 0 SeekEnd = ((size, None), f1) ->
        Seek f1 0 SeekStart = ((pos, None), f2) ->
        GetMaxFileParts (Some f) 0 = (Panics, Some f2)).
Proof.
  intros F HF f f1 f2 size pos. split; [done|].
  intros Hend Hstart. unfold GetMaxFileParts, GetFileSize.
  by rewrite Hend, Hstart.
Qed.

Lemma GetMaxFileParts_zero_part_size_witness :
  Seek five_bytes 0 SeekEnd
  = ((5, None), {| reader_bytes := reader_bytes five_bytes; reader_position := 5 |})
  /\ GetMaxFileParts (Some five_bytes) 0
     = (Panics,
        Some {| reader_bytes := reader_bytes five_bytes; reader_position := 0 |}).
Proof.
  split; [reflexivity|].
  apply (proj2 (GetMaxFileParts_zero_part_size bytes_Reader _ five_bytes
                  {| reader_bytes := reader_bytes five_bytes;
                     reader_position := 5 |}
                  {| reader_bytes := reader_bytes five_bytes;
                     reader_position := 0 |} 5 0));
    reflexivity.
Defined.

(** ** Splitting at a byte *)

Lemma strings_Split_cons s sep :
  exists piece pieces, strings_Split s sep = piece :: pieces.
Proof.
  induction s as [|c s (piece & pieces & IH)]; simpl; [by eauto|].
  destruct (Ascii.eqb c sep); [by eauto|]. rewrite IH. by eauto.
Qed.

Lemma strings_Join_cons piece pieces sep :
  pieces <> [] ->
  strings_Join (piece :: pieces) sep = piece ++ sep ++ strings_Join pieces sep.
Proof. by destruct pieces. Qed.

(** Joining the pieces with the separator gives the string back. *)
Lemma strings_Join_Split s sep :
  strings_Join (strings_Split s sep) (String sep EmptyString) = s.
Proof.
  induction s as [|c s IH]; [done|]. simpl.
  destruct (strings_Split_cons s sep) as (piece & pieces & Hs).
  destruct (Ascii.eqb c sep) eqn:Hc.
  - apply Ascii.eqb_eq in Hc as ->.
    rewrite strings_Join_cons by (by rewrite Hs). simpl. by rewrite IH.
  - rewrite Hs in *. destruct pieces as [|piece' pieces]; simpl in *.
    + by rewrite <- IH.
    + by rewrite <- IH.
Qed.

(** No piece holds the separator. *)
Lemma strings_Split_pieces s sep piece :
  piece ∈ strings_Split s sep -> has_byte sep piece = false.
Proof.
  revert piece. induction s as [|c s IH]; simpl; intros piece.
  - by intros ->%list_elem_of_singleton.
  - destruct (Ascii.eqb c sep) eqn:Hc.
    + intros [->|Hin]%elem_of_cons; [done|by apply IH].
    + destruct (strings_Split_cons s sep) as (piece' & pieces & Hs).
      rewrite Hs in *. intros [->|Hin]%elem_of_cons.
      * simpl. rewrite Hc. simpl. apply IH. by left.
      * apply IH. by right.
Qed.

(** A string without the separator is its only piece; a string with it has
    at least two pieces. *)
Lemma strings_Split_length s sep :
  if has_byte sep s then (2 <= length (strings_Split s sep))%nat
  else strings_Split s sep = [s].
Proof.
  induction s as [|c s IH]; simpl; [done|].
  destruct (strings_Split_cons s sep) as (piece & pieces & Hs).
  destruct (Ascii.eqb c sep) eqn:Hc; simpl.
  - rewrite Hs. simpl. lia.
  - destruct (has_byte sep s); rewrite Hs in *; simpl in *; [lia|].
    by injection IH as -> ->.
Qed.

Lemma append_assoc (s1 s2 s3 : string) : (s1 ++ s2) ++ s3 = s1 ++ s2 ++ s3.
Proof.
  induction s1 as [|c s1 IH]; [done|].
  change (String c ((s1 ++ s2) ++ s3) = String c (s1 ++ s2 ++ s3)).
  by rewrite IH.
Qed.

Lemma strings_Join_snoc pieces piece sep :
  pieces <> [] ->
  strings_Join (pieces ++ [piece]) sep = strings_Join pieces sep ++ sep ++ piece.
Proof.
  induction pieces as [|p pieces IH]; [done|]. intros _.
  destruct pieces as [|p' pieces]; [done|].
  change ((p :: p' :: pieces) ++ [piece])%list
    with (p :: ((p' :: pieces) ++ [piece]))%list.
  rewrite strings_Join_cons by (by destruct pieces).
  rewrite IH by done. rewrite (strings_Join_cons p (p' :: pieces)) by done.
  by rewrite !append_assoc.
Qed.

(** ** File names *)

(** X18. For a file name with a dot, [GetFileNameWithoutExtension] and
    [GetFileExtension] cut it at its last dot: the name without extension,
    a dot and the extension give the file name back, and the extension has
    no dot. *)
Theorem file_name_cut_at_last_dot :
  forall fileName : string,
    has_byte "." fileName = true ->
    GetFileNameWithoutExtension fileName ++ "." ++ GetFileExtension fileName
    = fileName
    /\ has_byte "." (GetFileExtension fileName) = false.
Proof.
  intros fileName Hdot.
  unfold GetFileNameWithoutExtension, GetFileExtension.
  destruct (decide (fileName = "")) as [->|_]; [done|].
  pose proof (strings_Split_length fileName ".") as Hlen.
  rewrite Hdot in Hlen.
  pose proof (strings_Join_Split fileName ".") as Hjoin.
  pose proof (strings_Split_pieces fileName ".") as Hpieces.
  destruct (strings_Split fileName ".") as [|ext front _] using rev_ind;
    [simpl in Hlen; lia|].
  rewrite length_app in *. simpl in *.
  destruct (decide (length front + 1 = 0)%nat) as [|_]; [lia|].
  replace (length front + 1 - 1)%nat with (length front) by lia.
  rewrite take_app_length, lookup_app_r, Nat.sub_diag by lia. simpl.
  split.
  - rewrite <- Hjoin. symmetry. apply strings_Join_snoc.
    intros ->. simpl in Hlen. lia.
  - apply Hpieces. apply elem_of_app. right. by left.
Qed.

Lemma file_name_cut_at_last_dot_witness :
  has_byte "." "archive.tar.gz" = true
  /\ GetFileNameWithoutExtension "archive.tar.gz" = "archive.tar"
  /\ GetFileExtension "archive.tar.gz" = "gz"
  /\ GetFileNameWithoutExtension "archive.tar.gz" ++ "."
       ++ GetFileExtension "archive.tar.gz" = "archive.tar.gz"
  /\ has_byte "." (GetFileExtension "archive.tar.gz") = false.
Proof.
  split; [reflexivity|]. split; [reflexivity|]. split; [reflexivity|].
  apply (file_name_cut_at_last_dot "archive.tar.gz"). reflexivity.
Defined.

(** X19. For a file name without a dot, [GetFileExtension] returns the
    whole file name and [GetFileNameWithoutExtension] returns the empty
    string. *)
Theorem file_name_without_dot :
  forall fileName : string,
    has_byte "." fileName = false ->
    GetFileExtension fileName = fileName
    /\ GetFileNameWithoutExtension fileName = "".
Proof.
  intros fileName Hdot.
  unfold GetFileNameWithoutExtension, GetFileExtension.
  destruct (decide (fileName = "")) as [->|_]; [done|].
  pose proof (strings_Split_length fileName ".") as Hlen.
  rewrite Hdot in Hlen. by rewrite Hlen.
Qed.

Lemma file_name_without_dot_witness :
  has_byte "." "README" = false
  /\ GetFileExtension "README" = "README"
  /\ GetFileNameWithoutExtension "README" = "".
Proof.
  split; [reflexivity|]. apply (file_name_without_dot "README"). reflexivity.
Defined.

(** ** Content type *)

(** The first piece is the string up to its first separator. *)
Lemma strings_Split_first s sep :
  exists first, strings_Split s sep !! 0%nat = Some first
    /\ has_byte sep first = false
    /\ (s = first \/ exists rest, s = first ++ String sep rest).
Proof.
  destruct (strings_Split_cons s sep) as (first & pieces & Hs).
  exists first. rewrite Hs. split; [done|]. split.
  - apply (strings_Split_pieces s sep). rewrite Hs. by left.
  - pose proof (strings_Join_Split s sep) as Hjoin. rewrite Hs in Hjoin.
    destruct pieces as [|piece pieces]; [by left|].
    right. rewrite strings_Join_cons in Hjoin by done. by eauto.
Qed.

(** X20. [GetFileContentTypeByBytes] and [GetFileContentType] return the
    detected MIME type without its parameters: the text before the first
    [;] (the whole text when there is none), so never a text with a [;],
    and without error.  A nil slice or reader is an error. *)
Theorem content_type_has_no_parameters :
  forall (F : Type) (mimetype_Detect : list Byte.byte -> string)
         (mimetype_DetectReader : F -> string + string),
    (forall bytes, exists contentType,
        GetFileContentTypeByBytes mimetype_Detect (Some bytes)
        = (contentType, None)
        /\ has_byte ";" contentType = false
        /\ (mimetype_Detect bytes = contentType
            \/ exists params,
                mimetype_Detect bytes = contentType ++ ";" ++ params))
    /\ (forall reader mtype,
          mimetype_DetectReader reader = inl mtype ->
          exists contentType,
            GetFileContentType mimetype_DetectReader (Some reader)
            = (contentType, None)
            /\ has_byte ";" contentType = false
            /\ (mtype = contentType
                \/ exists params, mtype = contentType ++ ";" ++ params))
    /\ GetFileContentTypeByBytes mimetype_Detect None
       = ("", Some (Wrapped (Predefined ErrInvalidReader)
                      "storage.GetFileContentTypeByBytes"))
    /\ GetFileContentType mimetype_DetectReader None
       = ("", Some (Wrapped (Predefined ErrInvalidReader)
                      "storage.GetFileContentType")).
Proof.
  intros F detect detectReader. split; [|split; [|done]].
  - intros bytes. unfold GetFileContentTypeByBytes.
    destruct (strings_Split_first (detect bytes) ";")
      as (first & -> & Hclean & Hprefix).
    exists first. by repeat split.
  - intros reader mtype Hdetect. unfold GetFileContentType. rewrite Hdetect.
    destruct (strings_Split_first mtype ";") as (first & -> & Hclean & Hprefix).
    exists first. by repeat split.
Qed.

Lemma content_type_has_no_parameters_witness :
  exists contentType,
    GetFileContentType
      (fun _ : bytes_Reader => inl "text/plain; charset=utf-8")
      (Some five_bytes) = (contentType, None)
    /\ has_byte ";" contentType = false
    /\ ("text/plain; charset=utf-8" = contentType
        \/ exists params,
            "text/plain; charset=utf-8" = contentType ++ ";" ++ params).
Proof.
  apply (proj1 (proj2 (content_type_has_no_parameters bytes_Reader
                         (fun _ => "text/plain; charset=utf-8")
                         (fun _ => inl "text/plain; charset=utf-8")))
           five_bytes "text/plain; charset=utf-8").
  reflexivity.
Defined.

Example content_type_of_plain_text :
  GetFileContentTypeByBytes (fun _ => "text/plain; charset=utf-8") (Some [])
  = ("text/plain", None).
Proof. reflexivity. Qed.

(** ** Public URLs *)

Lemma append_inv_head (s t1 t2 : string) : s ++ t1 = s ++ t2 -> t1 = t2.
Proof.
  induction s as [|c s IH]; [done|].
  change (String c (s ++ t1) = String c (s ++ t2) -> t1 = t2).
  intros [= Heq]. by apply IH.
Qed.

(** X21. For one interactor, different file paths have different public
    URLs, in path style and in virtual-hosted style. *)
Theorem FileURL_distinguishes_paths :
  forall (i : Interactor) (filepath1 filepath2 : string),
    filepath1 <> filepath2 -> FileURL i filepath1 <> FileURL i filepath2.
Proof.
  intros i p1 p2 Hne Heq. apply Hne. unfold FileURL in Heq.
  destruct (forcePathStyle i).
  - apply append_inv_head in Heq. apply (append_inv_head "/") in Heq.
    apply append_inv_head in Heq. by apply (append_inv_head "/") in Heq.
  - apply append_inv_head in Heq. by apply (append_inv_head "/") in Heq.
Qed.

Lemma FileURL_distinguishes_paths_witness :
  "a/x.png" <> "a/y.png"
  /\ FileURL a_path_style_interactor "a/x.png"
     <> FileURL a_path_style_interactor "a/y.png".
Proof.
  split; [discriminate|].
  apply (FileURL_distinguishes_paths a_path_style_interactor). discriminate.
Defined.

Example FileURL_path_style :
  FileURL a_path_style_interactor "a/x.png"
  = "https://files.example/bucket/a/x.png"
  /\ FileURL an_interactor "a/x.png" = "https://files.example/a/x.png".
Proof. split; reflexivity. Qed.

End HelperProperties.

(* ===================================================================== *)
(** * Starting and aborting a multipart upload                            *)
(* ===================================================================== *)

Module SessionProperties.
Import storage storage_sessions.

(** X22. [AbortMultipartUpload] with an empty upload identifier fails with
    [ErrMissedUploadID] and sends nothing.  In every case it sends nothing
    or the one request to abort the given upload of the given file, and
    that only with a non-empty upload identifier; it returns without error
    exactly when that request was sent and the object store answered
    without error. *)
Theorem AbortMultipartUpload_requests :
  forall (client : S3_sessions) (i : Interactor) (filename uploadID : string)
         (log : list session_request),
    let params :=
      {| abort_Bucket := bucket i; abort_Key := filename;
         abort_UploadId := uploadID |} in
    (uploadID = "" ->
     AbortMultipartUpload client i filename uploadID log
     = (Fail ErrMissedUploadID, log))
    /\ ((AbortMultipartUpload client i filename uploadID log).2 = log
        \/ (AbortMultipartUpload client i filename uploadID log).2
           = (log ++ [ReqAbortMultipartUpload params])%list
           /\ uploadID <> "")
    /\ ((AbortMultipartUpload client i filename uploadID log).1 = Return tt <->
        uploadID <> ""
        /\ AbortMultipartUploadInput_Validate client params = None
        /\ S3_AbortMultipartUpload client log params = None
        /\ (AbortMultipartUpload client i filename uploadID log).2
           = (log ++ [ReqAbortMultipartUpload params])%list).
Proof.
  intros client i filename uploadID log params. unfold AbortMultipartUpload.
  fold params. split; [by intros ->|].
  destruct (decide (uploadID = "")) as [|Hid]; simpl.
  { split; [by left|]. split; [done|]. by intros (? & _). }
  destruct (AbortMultipartUploadInput_Validate client params) eqn:Hvalid; simpl.
  { split; [by left|]. split; [done|]. by intros (_ & ? & _). }
  split; [right; by destruct (S3_AbortMultipartUpload client log params)|].
  destruct (S3_AbortMultipartUpload client log params) eqn:Hanswer; simpl.
  - split; [done|]. by intros (_ & _ & ? & _).
  - by split.
Qed.

Lemma AbortMultipartUpload_requests_witness :
  AbortMultipartUpload nameless_sessions an_interactor "file" "" []
  = (Fail ErrMissedUploadID, []).
Proof.
  apply (proj1 (AbortMultipartUpload_requests nameless_sessions an_interactor
                  "file" "" [])).
  reflexivity.
Defined.

(** X23. When [CreateMultipartUpload] returns an upload identifier, it is
    the one the object store answered to the request for the given file,
    content type and ACL in the interactor's bucket, and that request was
    sent.  The identifier is not checked for emptiness: an empty one is
    returned as a success, and [UploadPart], [CompleteMultipartUpload] and
    [AbortMultipartUpload] then refuse it with [ErrMissedUploadID] without
    sending anything. *)
Theorem CreateMultipartUpload_returned_identifier :
  forall (client : S3_sessions) (i : Interactor)
         (filename contentType : string) (acl : string)
         (log : list session_request) (uploadID : string),
    (CreateMultipartUpload client i filename contentType acl log).1
    = Return uploadID ->
    let input :=
      {| create_ACL := acl; create_Bucket := bucket i; create_Key := filename;
         create_ContentType := contentType |} in
    S3_CreateMultipartUpload client log input
    = inl {| create_UploadId := Some uploadID |}
    /\ (CreateMultipartUpload client i filename contentType acl log).2
       = (log ++ [ReqCreateMultipartUpload input])%list
    /\ (uploadID = "" ->
        (forall data partNum totalParts log',
            UploadPart i filename uploadID data partNum totalParts log'
            = (Fail ErrMissedUploadID, log'))
        /\ (forall (parts : list completedPart) log',
              CompleteMultipartUpload i filename uploadID parts log'
              = (Fail ErrMissedUploadID, log'))
        /\ (forall log',
              AbortMultipartUpload client i filename uploadID log'
              = (Fail ErrMissedUploadID, log'))).
Proof.
  intros client i filename contentType acl log uploadID.
  unfold CreateMultipartUpload.
  destruct (CreateMultipartUploadInput_Validate client _); [done|].
  destruct (S3_CreateMultipartUpload client log _) as [[[id|]]|err] eqn:Hanswer;
    try done.
  simpl. intros [= ->]. split; [done|]. split; [done|].
  intros ->. by repeat split.
Qed.

Lemma CreateMultipartUpload_returned_identifier_witness :
  (CreateMultipartUpload nameless_sessions an_interactor "file" "image/png"
     "public-read" []).1 = Return ""
  /\ (CreateMultipartUpload nameless_sessions an_interactor "file" "image/png"
        "public-read" []).2
     = [ReqCreateMultipartUpload
          {| create_ACL := "public-read"; create_Bucket := "bucket";
             create_Key := "file"; create_ContentType := "image/png" |}]
  /\ UploadPart an_interactor "file" "" [] 1 1 [] = (Fail ErrMissedUploadID, []).
Proof.
  assert (Hret : (CreateMultipartUpload nameless_sessions an_interactor "file"
                    "image/png" "public-read" []).1 = Return "")
    by reflexivity.
  split; [exact Hret|].
  destruct (CreateMultipartUpload_returned_identifier nameless_sessions
              an_interactor "file" "image/png" "public-read" [] "" Hret)
    as (_ & Hsent & Hempty).
  split; [exact Hsent|].
  destruct (Hempty eq_refl) as (Hupload & _). apply Hupload.
Defined.

End SessionProperties.
